(** * Trace-item filter engine of [utils/jama_report.py]

    A shallow embedding of [Condition], [ConditionGroup] and [JamaFilter]
    (with [dict_get_first] of [utils/dictutils.py]) and the properties of
    the filter engine proved about it.

    Python dictionaries are [gmap]s, or records of optional entries where
    the schema of the module gives every key its own value shape; [None]
    stands for an absent key.  A raised exception is the [Raise] case of
    [result].  Recursion through named conditions is bounded by a depth
    budget, as the interpreter bounds it. *)

From Stdlib Require Import ZArith String Ascii.
From stdpp Require Import base option list gmap strings.

Local Open Scope string_scope.

(** ** Exceptions and results *)

Inductive exn : Type :=
| InvalidCondition (msg : string)
| TypeError
| AttributeError
| KeyError (key : string)
| IndexError
| RuntimeError.

Inductive result (A : Type) : Type :=
| Ok (a : A)
| Raise (e : exn).

Arguments Ok {A} a.
Arguments Raise {A} e.

#[global] Instance result_ret : MRet result := fun A a => Ok a.
#[global] Instance result_bind : MBind result := fun A B k m =>
  match m with
  | Ok a => k a
  | Raise e => Raise e
  end.

#[global] Instance result_fmap : FMap result := fun A B f m =>
  match m with
  | Ok a => Ok (f a)
  | Raise e => Raise e
  end.

#[global] Instance exn_eq_dec : EqDecision exn.
Proof. solve_decision. Defined.

#[global] Instance result_eq_dec {A} `{EqDecision A} : EqDecision (result A).
Proof. solve_decision. Defined.

Definition returns {A} (r : result A) : Prop := exists a, r = Ok a.

(** [all(g)] over a generator: elements are produced one at a time and the
    scan stops at the first false one, so a later element is never
    computed (and cannot raise). *)
Fixpoint py_all {A} (f : A -> result bool) (l : list A) : result bool :=
  match l with
  | [] => Ok true
  | x :: r => b ← f x; if b : bool then py_all f r else Ok false
  end.

(** [any(g)]: stops at the first true element. *)
Fixpoint py_any {A} (f : A -> result bool) (l : list A) : result bool :=
  match l with
  | [] => Ok false
  | x :: r => b ← f x; if b : bool then Ok true else py_any f r
  end.

(** [sum(1 for u in l if f(u))]. *)
Fixpoint py_count {A} (f : A -> result bool) (l : list A) : result Z :=
  match l with
  | [] => Ok 0%Z
  | x :: r => b ← f x; n ← py_count f r; Ok ((if b : bool then 1 else 0) + n)%Z
  end.

(** [x is None]. *)
Definition is_none {A} (x : option A) : bool :=
  match x with
  | None => true
  | Some _ => false
  end.

(** ** dictutils.dict_get_first

    The pair [(None, None)] of the source is [None] here. *)
Fixpoint dict_get_first {D A} `{Lookup string A D} (d : D) (keys : list string)
  : option (string * A) :=
  match keys with
  | [] => None
  | key :: rest =>
      match d !! key with
      | Some v => Some (key, v)
      | None => dict_get_first d rest
      end
  end.

(** ** Schema constants *)

Definition STR_CONTAINS := "contains".
Definition STR_DOES_NOT_CONTAIN := "does not contain".
Definition STR_IS := "is".
Definition STR_IS_NOT := "is not".
Definition STR_IN := "in".
Definition STR_NOT_IN := "not in".
Definition STR_MATCHES := "matches".
Definition DATE_BEFORE := "before".
Definition DATE_AFTER := "after".
Definition NUM_IS := "is".
Definition NUM_IS_NOT := "is not".
Definition NUM_IN := "in".
Definition NUM_NOT_IN := "not in".
Definition NUM_GREATER_THAN := "greater than".
Definition NUM_GREATER_THAN_EQ := "greater than or equal to".
Definition NUM_LESS_THAN := "less than".
Definition NUM_LESS_THAN_EQ := "less than or equal to".
Definition RELS_WITH_TYPE := "with relationship type".
Definition RELS_COUNT := "count".
Definition RELS_ALL_MATCH := "all match".
Definition RELS_COUNT_MATCH := "count match".
Definition RELS_NONE_MATCH := "none match".
Definition RELS_COUNT_UNKNOWNS := "count unknowns".
Definition LOCATION := "location".
Definition LOCATION_IS_UNDER := "is under".
Definition LOCATION_IS_NOT_UNDER := "is not under".
Definition LOCATION_EVERY_NODE := "every node".
Definition LOCATION_NO_NODE := "no node".
Definition FIELD := "field".
Definition FIELD_NAME := "name".
Definition FIELD_VALUE := "value".
Definition FIELD_REQUIRED := "required".
Definition CREATED := "created".
Definition MODIFIED := "modified".
Definition TAGS := "tags".
Definition TAGS_INCLUDE := "include".
Definition TAGS_EXCLUDE := "exclude".
Definition UPSTREAM_ITEMS := "upstream items".
Definition DOWNSTREAM_ITEMS := "downstream items".
Definition GROUP_TYPE := "type".
Definition GROUP_ALL := "according to all".
Definition GROUP_ANY := "according to any".

Definition STR_KEYS : list string :=
  [STR_CONTAINS; STR_DOES_NOT_CONTAIN; STR_IS; STR_IS_NOT; STR_IN; STR_NOT_IN;
   STR_MATCHES].

(** The double-quote character of the error messages. *)
Definition dq : string := String (ascii_of_nat 34) EmptyString.
Definition quoted (s : string) : string := dq +:+ s +:+ dq.

(** ** Item model (DATA_SCHEMA) *)

Record Relationship : Type := {
  rel_global_id : string;
  rel_project_id : string;
  rel_type : string;
  rel_project : string;
  rel_name : string
}.

Record Item : Type := {
  downstream : list Relationship;
  fields : gmap string string;
  location : list string;
  object_created : Z;
  object_modified : Z;
  object_type : string;
  project_id : string;
  report_path : string;
  tags : list string;
  title : string;
  upstream : list Relationship
}.

(** ** Comparison values *)

(** A compiled pattern is represented by its [match] test: whether the
    pattern matches at the start of the string. *)
Inductive str_value : Type :=
| SStr (s : string)
| SList (l : list string)
| SPattern (matches : string -> bool).

Inductive num_value : Type :=
| NInt (n : Z)
| NList (l : list Z).

(** [needle in hay] on strings. *)
Fixpoint str_contains (needle hay : string) : bool :=
  String.prefix needle hay ||
  match hay with
  | EmptyString => false
  | String _ rest => str_contains needle rest
  end.

(** ** Condition._strcomp

    [comp_value] and [logic] are attributes of the condition and may be
    [None].  A comparison value of a shape the operator does not take
    behaves as the operator does on it: [in] on a non-container raises,
    [==] between different shapes is false. *)
Definition _strcomp (value : string) (comp_value : option str_value)
    (logic : option string) : result bool :=
  if bool_decide (logic = Some STR_CONTAINS) then
    match comp_value with
    | Some (SStr s) => Ok (str_contains s value)
    | _ => Raise TypeError
    end
  else if bool_decide (logic = Some STR_DOES_NOT_CONTAIN) then
    match comp_value with
    | Some (SStr s) => Ok (negb (str_contains s value))
    | _ => Raise TypeError
    end
  else if bool_decide (logic = Some STR_IS) then
    match comp_value with
    | Some (SStr s) => Ok (bool_decide (value = s))
    | _ => Ok false
    end
  else if bool_decide (logic = Some STR_IS_NOT) then
    match comp_value with
    | Some (SStr s) => Ok (negb (bool_decide (value = s)))
    | _ => Ok true
    end
  else if bool_decide (logic = Some STR_IN) then
    match comp_value with
    | Some (SList l) => Ok (bool_decide (value ∈ l))
    | Some (SStr s) => Ok (str_contains value s)
    | _ => Raise TypeError
    end
  else if bool_decide (logic = Some STR_NOT_IN) then
    match comp_value with
    | Some (SList l) => Ok (negb (bool_decide (value ∈ l)))
    | Some (SStr s) => Ok (negb (str_contains value s))
    | _ => Raise TypeError
    end
  else if bool_decide (logic = Some STR_MATCHES) then
    match comp_value with
    | Some (SPattern m) => Ok (m value)
    | _ => Raise AttributeError
    end
  else
    Raise (InvalidCondition
             ("Invalid string comparison logic " +:+
              quoted (default "None" logic))).

(** ** Condition._numcomp

    Ordering an integer against a list does not raise in the interpreter
    the module targets: a number orders before every list. *)
Definition _numcomp (value : Z) (comp_value : num_value) (logic : string)
  : result bool :=
  if bool_decide (logic = NUM_IS) then
    match comp_value with
    | NInt n => Ok (value =? n)%Z
    | NList _ => Ok false
    end
  else if bool_decide (logic = NUM_IS_NOT) then
    match comp_value with
    | NInt n => Ok (negb (value =? n)%Z)
    | NList _ => Ok true
    end
  else if bool_decide (logic = NUM_IN) then
    match comp_value with
    | NList l => Ok (bool_decide (value ∈ l))
    | NInt _ => Raise TypeError
    end
  else if bool_decide (logic = NUM_NOT_IN) then
    match comp_value with
    | NList l => Ok (negb (bool_decide (value ∈ l)))
    | NInt _ => Raise TypeError
    end
  else if bool_decide (logic = NUM_GREATER_THAN) then
    match comp_value with
    | NInt n => Ok (value >? n)%Z
    | NList _ => Ok false
    end
  else if bool_decide (logic = NUM_GREATER_THAN_EQ) then
    match comp_value with
    | NInt n => Ok (value >=? n)%Z
    | NList _ => Ok false
    end
  else if bool_decide (logic = NUM_LESS_THAN) then
    match comp_value with
    | NInt n => Ok (value <? n)%Z
    | NList _ => Ok true
    end
  else if bool_decide (logic = NUM_LESS_THAN_EQ) then
    match comp_value with
    | NInt n => Ok (value <=? n)%Z
    | NList _ => Ok true
    end
  else
    Raise (InvalidCondition
             ("Invalid number comparison logic " +:+ quoted logic)).

(** ** Condition definitions (CONDITION_SCHEMA)

    The dictionary a [Condition] is built from.  Each record is the
    dictionary of one schema: a field is the value under one key, [None]
    when the key is absent.  String and number comparisons are
    dictionaries from the comparison name to its value. *)

Record location_def : Type := {
  loc_is_under : option (list string);
  loc_is_not_under : option (list string);
  loc_every_node : option (gmap string str_value);
  loc_no_node : option (gmap string str_value)
}.

Record field_def : Type := {
  fld_name : option string;
  fld_value : option (gmap string str_value);
  fld_required : option bool
}.

Record date_def : Type := {
  date_before : option Z;
  date_after : option Z
}.

Record tags_def : Type := {
  tag_include : option string;
  tag_exclude : option string
}.

Record rels_def : Type := {
  rels_with_type : option (list string);
  rels_count : option (gmap string num_value);
  rels_all_match : option string;
  rels_count_match : option string;
  rels_none_match : option string;
  rels_count_unknowns : option bool
}.

Record condition_def : Type := {
  def_location : option location_def;
  def_field : option field_def;
  def_created : option date_def;
  def_modified : option date_def;
  def_tags : option tags_def;
  def_upstream : option rels_def;
  def_downstream : option rels_def
}.

(** The value under a key of the location dictionary: a path for
    [is under] and [is not under], a string comparison for the others. *)
Inductive location_value : Type :=
| LocPath (path : list string)
| LocComp (comp : gmap string str_value).

#[global] Instance location_def_lookup : Lookup string location_value location_def :=
  fun key d =>
    if bool_decide (key = LOCATION_IS_UNDER) then LocPath <$> loc_is_under d
    else if bool_decide (key = LOCATION_IS_NOT_UNDER) then
      LocPath <$> loc_is_not_under d
    else if bool_decide (key = LOCATION_EVERY_NODE) then
      LocComp <$> loc_every_node d
    else if bool_decide (key = LOCATION_NO_NODE) then LocComp <$> loc_no_node d
    else None.

(** The nested condition names of a relationship dictionary, by key. *)
#[global] Instance rels_def_lookup : Lookup string string rels_def :=
  fun key d =>
    if bool_decide (key = RELS_ALL_MATCH) then rels_all_match d
    else if bool_decide (key = RELS_COUNT_MATCH) then rels_count_match d
    else if bool_decide (key = RELS_NONE_MATCH) then rels_none_match d
    else None.

(** ** The Condition object: the attributes [__init__] sets *)

Record Condition : Type := {
  location_logic : option string;
  location_path : option (list string);
  location_node_logic : option string;
  location_node_value : option str_value;
  field_name : option string;
  field_logic : option string;
  field_value : option str_value;
  field_required : option bool;
  created_before : option Z;
  created_after : option Z;
  modified_before : option Z;
  modified_after : option Z;
  tags_include : option string;
  tags_exclude : option string;
  upstream_type : option (list string);
  upstream_count : option (list (string * num_value));
  upstream_logic : option string;
  upstream_condition : option string;
  upstream_count_unknowns : option bool;
  downstream_type : option (list string);
  downstream_count : option (list (string * num_value));
  downstream_logic : option string;
  downstream_condition : option string;
  downstream_count_unknowns : option bool
}.

(** ** Condition.__init__

    Each part of the constructor is a function from one entry of the
    definition to the attributes that part sets; [Condition_init] runs
    them in the order of the source, so the first part that raises decides
    the exception. *)

Definition missing_attribute (cnd : string) : exn :=
  InvalidCondition ("Missing attribute for " +:+ quoted cnd +:+ " condition").

Definition missing_named_attribute (attr cnd : string) : exn :=
  InvalidCondition
    ("Missing " +:+ quoted attr +:+ " attribute for " +:+ quoted cnd +:+
     " condition").

Definition init_location (d : option location_def)
  : result (option string * option (list string) *
            option string * option str_value) :=
  match d with
  | None => Ok (None, None, None, None)
  | Some location_condition =>
      match dict_get_first location_condition
              [LOCATION_IS_UNDER; LOCATION_IS_NOT_UNDER;
               LOCATION_EVERY_NODE; LOCATION_NO_NODE] with
      | None =>
          (* no key: the logic is None, and the node comparison is looked
             for in the value None *)
          Raise TypeError
      | Some (logic, location_value) =>
          if bool_decide (logic ∈ [LOCATION_IS_UNDER; LOCATION_IS_NOT_UNDER])
          then
            match location_value with
            | LocPath p => Ok (Some logic, Some p, None, None)
            | LocComp _ =>
                (* not a value of these two keys in any [location_def] *)
                Raise TypeError
            end
          else
            match location_value with
            | LocComp comp =>
                match dict_get_first comp STR_KEYS with
                | Some (node_logic, node_value) =>
                    Ok (Some logic, None, Some node_logic, Some node_value)
                | None => Raise (missing_attribute logic)
                end
            | LocPath _ =>
                (* not a value of the node keys in any [location_def] *)
                Raise TypeError
            end
      end
  end.

Definition init_field (d : option field_def)
  : result (option string * option string * option str_value * option bool) :=
  match d with
  | None => Ok (None, None, None, None)
  | Some field_condition =>
      let name := fld_name field_condition in
      let comp :=
        match fld_value field_condition with
        | Some v => dict_get_first v STR_KEYS
        | None => None
        end in
      let required := default true (fld_required field_condition) in
      let logic := fst <$> comp in
      let value := snd <$> comp in
      if is_none name then
        Raise (missing_named_attribute FIELD_NAME FIELD)
      else if negb required && forallb is_none [value; value] then
        Raise (missing_named_attribute FIELD_VALUE FIELD)
      else Ok (name, logic, value, Some required)
  end.

Definition init_date (cnd : string) (d : option date_def)
  : result (option Z * option Z) :=
  match d with
  | None => Ok (None, None)
  | Some date_condition =>
      let before := date_before date_condition in
      let after := date_after date_condition in
      if forallb is_none [before; after] then Raise (missing_attribute cnd)
      else Ok (before, after)
  end.

Definition init_tags (d : option tags_def)
  : result (option string * option string) :=
  match d with
  | None => Ok (None, None)
  | Some tags_condition =>
      let include := tag_include tags_condition in
      let exclude := tag_exclude tags_condition in
      if forallb is_none [include; exclude] then Raise (missing_attribute TAGS)
      else Ok (include, exclude)
  end.

(** The count comparisons of a relationship definition: the single
    equality-family comparison when there is one, else the ordering
    comparisons that are present, in the order of the source. *)
Definition init_count (cnd : string) (count : gmap string num_value)
  : result (list (string * num_value)) :=
  match dict_get_first count [NUM_IS; NUM_IS_NOT; NUM_IN; NUM_NOT_IN] with
  | Some (logic, comp_value) => Ok [(logic, comp_value)]
  | None =>
      let comps :=
        omap (fun logic => pair logic <$> count !! logic)
          [NUM_GREATER_THAN; NUM_GREATER_THAN_EQ;
           NUM_LESS_THAN; NUM_LESS_THAN_EQ] in
      if bool_decide (length comps = 0) then
        Raise (InvalidCondition
                 ("Missing sub-attribute of attribute " +:+ quoted RELS_COUNT
                  +:+ " for " +:+ quoted cnd +:+ " condition"))
      else Ok comps
  end.

(** The upstream and the downstream part of the constructor are the same
    code on the two entries; [cnd] is the entry's name. *)
Definition init_relationships (cnd : string) (d : option rels_def)
  : result (option (list string) * option (list (string * num_value)) *
            option string * option string * option bool) :=
  match d with
  | None => Ok (None, None, None, None, None)
  | Some rels_condition =>
      let type := rels_with_type rels_condition in
      count ← match rels_count rels_condition with
              | Some count => Some <$> init_count cnd count
              | None => Ok None
              end;
      let named : option (string * string) :=
        dict_get_first rels_condition
          [RELS_ALL_MATCH; RELS_COUNT_MATCH; RELS_NONE_MATCH] in
      let logic := fst <$> named in
      let condition := snd <$> named in
      let count_unknowns := default false (rels_count_unknowns rels_condition) in
      if is_none count && is_none condition then Raise (missing_attribute cnd)
      else if is_none count then
        if bool_decide (logic = Some RELS_COUNT_MATCH) then
          Raise (InvalidCondition
                   ("Attribute " +:+ quoted RELS_COUNT +:+
                    " must be used with attribute " +:+
                    quoted RELS_COUNT_MATCH))
        else Ok (type, count, logic, condition, Some count_unknowns)
      else if negb (bool_decide (logic ∈ [None; Some RELS_COUNT_MATCH])) then
        Raise (InvalidCondition
                 ("Attribute " +:+ quoted RELS_COUNT +:+
                  " cannot be combined with attribute " +:+
                  quoted (default "None" logic)))
      else Ok (type, count, logic, condition, Some count_unknowns)
  end.

Definition Condition_init (condition : condition_def) : result Condition :=
  '(loc_logic, loc_path, node_logic, node_value) ←
      init_location (def_location condition);
  '(f_name, f_logic, f_value, f_required) ← init_field (def_field condition);
  '(c_before, c_after) ← init_date CREATED (def_created condition);
  '(m_before, m_after) ← init_date MODIFIED (def_modified condition);
  '(t_include, t_exclude) ← init_tags (def_tags condition);
  '(u_type, u_count, u_logic, u_condition, u_unknowns) ←
      init_relationships UPSTREAM_ITEMS (def_upstream condition);
  '(d_type, d_count, d_logic, d_condition, d_unknowns) ←
      init_relationships DOWNSTREAM_ITEMS (def_downstream condition);
  Ok {| location_logic := loc_logic;
        location_path := loc_path;
        location_node_logic := node_logic;
        location_node_value := node_value;
        field_name := f_name;
        field_logic := f_logic;
        field_value := f_value;
        field_required := f_required;
        created_before := c_before;
        created_after := c_after;
        modified_before := m_before;
        modified_after := m_after;
        tags_include := t_include;
        tags_exclude := t_exclude;
        upstream_type := u_type;
        upstream_count := u_count;
        upstream_logic := u_logic;
        upstream_condition := u_condition;
        upstream_count_unknowns := u_unknowns;
        downstream_type := d_type;
        downstream_count := d_count;
        downstream_logic := d_logic;
        downstream_condition := d_condition;
        downstream_count_unknowns := d_unknowns |}.

(** ** Predicates: conditions, condition groups and their members

    A member of a group is a condition object or the name of a named
    condition; a nested condition of a relationship condition is always a
    name. *)

Inductive predicate : Type :=
| PCondition (c : Condition)
| PGroup (g : ConditionGroup)
with ConditionGroup : Type :=
| MkConditionGroup (type : option (list string)) (group_logic : option string)
    (conditions : option (list member))
with member : Type :=
| MName (name : string)
| MObject (p : predicate).

Definition group_type (g : ConditionGroup) : option (list string) :=
  let 'MkConditionGroup t _ _ := g in t.
Definition group_logic (g : ConditionGroup) : option string :=
  let 'MkConditionGroup _ l _ := g in l.
Definition group_conditions (g : ConditionGroup) : option (list member) :=
  let 'MkConditionGroup _ _ c := g in c.

(** The dictionary a [ConditionGroup] is built from
    (CONDITION_GROUP_SCHEMA). *)
Record group_def : Type := {
  grp_type : option (list string);
  grp_all : option (list member);
  grp_any : option (list member)
}.

#[global] Instance group_def_lookup : Lookup string (list member) group_def :=
  fun key d =>
    if bool_decide (key = GROUP_ALL) then grp_all d
    else if bool_decide (key = GROUP_ANY) then grp_any d
    else None.

(** ** ConditionGroup.__init__

    [len(self.conditions)] is computed only when the type is None, and
    raises when there is no member list to take the length of. *)
Definition ConditionGroup_init (condition : group_def) : result ConditionGroup :=
  let type := grp_type condition in
  let found : option (string * list member) :=
    dict_get_first condition [GROUP_ALL; GROUP_ANY] in
  let logic := fst <$> found in
  let conditions := snd <$> found in
  if is_none type then
    match conditions with
    | None => Raise TypeError
    | Some l =>
        if bool_decide (length l = 0) then
          Raise (InvalidCondition
                   "Condition group must specify a type and/or group of conditions")
        else Ok (MkConditionGroup type logic conditions)
    end
  else Ok (MkConditionGroup type logic conditions).

(** ** Evaluation *)

Definition missing_condition (name : string) : exn :=
  InvalidCondition ("Missing condition with name " +:+ quoted name).

(** [enumerate(l)]. *)
Definition enumerate {A} (l : list A) : list (nat * A) :=
  zip (seq 0 (length l)) l.

(** [l[i]]. *)
Definition getitem {A} (l : list A) (i : nat) : result A :=
  match l !! i with
  | Some x => Ok x
  | None => Raise IndexError
  end.

(** The loop of [_evaluate_relationships] that collects the known related
    items and counts the unknown ones. *)
Definition collect_step (types : option (list string))
    (item_map : gmap string Item) (acc : list Item * Z) (relationship : Relationship)
  : list Item * Z :=
  let '(known_items, num_unknowns) := acc in
  if negb (is_none types) &&
     negb (bool_decide (rel_type relationship ∈ default [] types))
  then acc
  else
    match item_map !! rel_project_id relationship with
    | None => (known_items, (num_unknowns + 1)%Z)
    | Some related_item =>
        ((known_items ++ [related_item])%list, num_unknowns)
    end.

Definition collect_related (types : option (list string))
    (item_map : gmap string Item) (relationships : list Relationship)
  : list Item * Z :=
  foldl (collect_step types item_map) ([], 0%Z) relationships.

(** [all(self._numcomp(value=n, comp_value=value, logic=logic)
         for logic, value in count)]; iterating over None raises. *)
Definition count_holds (n : Z) (count : option (list (string * num_value)))
  : result bool :=
  match count with
  | None => Raise TypeError
  | Some comps => py_all (fun '(logic, value) => _numcomp n value logic) comps
  end.

Section evaluation.

(** [call p u] is the call [p(u, item_map, named_conditions)] of a
    condition object. *)
Variable call : predicate -> Item -> result bool.

(** Calling the nested condition; None is not callable. *)
Definition call_nested (condition : option predicate) (u : Item) : result bool :=
  match condition with
  | Some p => call p u
  | None => Raise TypeError
  end.

Definition _relcomp (related_items : list Item) (condition : option predicate)
    (logic : option string) : result bool :=
  if bool_decide (logic = Some RELS_ALL_MATCH) then
    py_all (call_nested condition) related_items
  else if bool_decide (logic = Some RELS_NONE_MATCH) then
    py_all (fun u => negb <$> call_nested condition u) related_items
  else
    Raise (InvalidCondition
             ("Invalid relationship comparison logic " +:+
              quoted (default "None" logic))).

Definition _evaluate_relationships (relationships : list Relationship)
    (types : option (list string)) (logic : option string)
    (count_unknowns : option bool)
    (count : option (list (string * num_value)))
    (condition : option predicate) (item_map : gmap string Item)
  : result bool :=
  let '(known_items, num_unknowns) :=
    collect_related types item_map relationships in
  if is_none logic then
    let num_related_items := Z.of_nat (length known_items) in
    let num_related_items :=
      if default false count_unknowns
      then (num_related_items + num_unknowns)%Z
      else num_related_items in
    count_holds num_related_items count
  else if negb (default false count_unknowns) && (num_unknowns >? 0)%Z &&
          bool_decide (logic ∈ [Some RELS_ALL_MATCH; Some RELS_NONE_MATCH])
  then Ok false
  else if bool_decide (logic = Some RELS_COUNT_MATCH) then
    matched ← py_count (call_nested condition) known_items;
    count_holds (matched + num_unknowns)%Z count
  else _relcomp known_items condition logic.

End evaluation.

Section calls.

Variable call : predicate -> Item -> result bool.

(** The two rejecting tests of a date range: not after [after], or not
    before [before]. *)
Definition date_rejects (value : Z) (after before : option Z) : bool :=
  match after with
  | Some a => (value <=? a)%Z
  | None => false
  end
  || match before with
     | Some b => (value >=? b)%Z
     | None => false
     end.

(** Looking up the nested condition of a relationship condition. *)
Definition nested_condition (name : option string)
    (named_conditions : gmap string predicate) : result (option predicate) :=
  match name with
  | None => Ok None
  | Some n =>
      match named_conditions !! n with
      | Some p => Ok (Some p)
      | None => Raise (missing_condition n)
      end
  end.

(** *** Condition.__call__ *)
Definition Condition_call (self : Condition) (item : Item)
    (item_map : gmap string Item) (named_conditions : gmap string predicate)
  : result bool :=
  let item_path := (location item ++ [title item])%list in
  if bool_decide (location_logic self = Some LOCATION_IS_UNDER) then
    match location_path self with
    | None => Raise TypeError
    | Some path =>
        if (length item_path <? length path)%nat then Ok false
        else py_all (fun '(i, node) =>
                       x ← getitem item_path i; Ok (bool_decide (x = node)))
               (enumerate path)
    end
  else if bool_decide (location_logic self = Some LOCATION_IS_NOT_UNDER) then
    match location_path self with
    | None => Raise TypeError
    | Some path =>
        if (length item_path <? length path)%nat then Ok true
        else negb <$>
             py_all (fun '(i, node) =>
                       x ← getitem item_path i; Ok (bool_decide (x = node)))
               (enumerate path)
    end
  else if bool_decide (location_logic self = Some LOCATION_EVERY_NODE) then
    py_all (fun node =>
              _strcomp node (location_node_value self)
                (location_node_logic self))
      item_path
  else if bool_decide (location_logic self = Some LOCATION_NO_NODE) then
    py_all (fun node =>
              negb <$> _strcomp node (location_node_value self)
                         (location_node_logic self))
      item_path
  else
  match field_name self with
  | Some name =>
      match fields item !! name with
      | None => Ok (negb (default false (field_required self)))
      | Some value =>
          if is_none (field_logic self) then Ok true
          else _strcomp value (field_value self) (field_logic self)
      end
  | None =>
  if date_rejects (object_created item) (created_after self)
       (created_before self)
  then Ok false
  else if negb (forallb is_none [created_after self; created_before self])
  then Ok true
  else if date_rejects (object_modified item) (modified_after self)
            (modified_before self)
  then Ok false
  else if negb (forallb is_none [modified_after self; modified_before self])
  then Ok true
  else
  match tags_include self with
  | Some tag => Ok (bool_decide (tag ∈ tags item))
  | None =>
  match tags_exclude self with
  | Some tag => Ok (negb (bool_decide (tag ∈ tags item)))
  | None =>
  if negb (is_none (upstream_logic self) && is_none (upstream_count self))
  then
    condition ← nested_condition (upstream_condition self) named_conditions;
    _evaluate_relationships call (upstream item) (upstream_type self)
      (upstream_logic self) (upstream_count_unknowns self)
      (upstream_count self) condition item_map
  else if negb (is_none (downstream_logic self) &&
                is_none (downstream_count self))
  then
    condition ← nested_condition (downstream_condition self) named_conditions;
    _evaluate_relationships call (downstream item) (downstream_type self)
      (downstream_logic self) (downstream_count_unknowns self)
      (downstream_count self) condition item_map
  else Raise (InvalidCondition "No condition logic to evaluate")
  end end end.

(** The loop of [ConditionGroup.__call__] that replaces every name by
    the named condition; it runs to its end before any member is
    evaluated. *)
Fixpoint resolve_members (named_conditions : gmap string predicate)
    (members : list member) : result (list predicate) :=
  match members with
  | [] => Ok []
  | MObject p :: rest =>
      ps ← resolve_members named_conditions rest; Ok (p :: ps)
  | MName name :: rest =>
      match named_conditions !! name with
      | None => Raise (missing_condition name)
      | Some p =>
          ps ← resolve_members named_conditions rest; Ok (p :: ps)
      end
  end.

(** *** ConditionGroup.__call__ *)
Definition ConditionGroup_call (self : ConditionGroup) (item : Item)
    (named_conditions : gmap string predicate) : result bool :=
  if match group_type self with
     | Some types => negb (bool_decide (object_type item ∈ types))
     | None => false
     end
  then Ok false
  else
    match group_conditions self with
    | None => Ok true
    | Some members =>
        conditions ← resolve_members named_conditions members;
        if bool_decide (group_logic self = Some GROUP_ALL) then
          py_all (fun condition => call condition item) conditions
        else if bool_decide (group_logic self = Some GROUP_ANY) then
          py_any (fun condition => call condition item) conditions
        else Ok true
    end.

End calls.

(** Calling a condition object.  Every call of a condition or of a group
    takes one level of the call depth [depth]; the interpreter raises
    RuntimeError when the depth is used up, which is what a cycle of named
    conditions ends in. *)
Fixpoint predicate_call (depth : nat) (item_map : gmap string Item)
    (named_conditions : gmap string predicate) (p : predicate) (item : Item)
  : result bool :=
  match depth with
  | 0 => Raise RuntimeError
  | S d =>
      let call := predicate_call d item_map named_conditions in
      match p with
      | PCondition c => Condition_call call c item item_map named_conditions
      | PGroup g => ConditionGroup_call call g item named_conditions
      end
  end.

(** ** JamaFilter

    The constructor keeps the dictionary it is given, so dictionaries are
    objects of a store: a reference names a dictionary, and [pop] changes
    the dictionary every holder of the reference sees. *)

Abbreviation ref := nat (only parsing).
Abbreviation store := (gmap nat (gmap string predicate)) (only parsing).

Record JamaFilter : Type := {
  main_condition : predicate;
  named_conditions : ref
}.

(** [d.pop(key)] on the dictionary at [r]. *)
Definition dict_pop (r : ref) (key : string) (h : store)
  : result predicate * store :=
  match (h !!! r) !! key with
  | Some v => (Ok v, <[r := delete key (h !!! r)]> h)
  | None => (Raise (KeyError key), h)
  end.

(** [d[key] = v] on the dictionary at [r]. *)
Definition dict_setitem (r : ref) (key : string) (v : predicate) (h : store)
  : store :=
  <[r := <[key := v]> (h !!! r)]> h.

(** *** JamaFilter.__init__ *)
Definition JamaFilter_init (conditions : ref) (h : store)
  : result JamaFilter * store :=
  match dict_pop conditions "main" h with
  | (Ok main, h') =>
      (Ok {| main_condition := main; named_conditions := conditions |}, h')
  | (Raise e, h') => (Raise e, h')
  end.

(** [{item['project_id']: item for item in items}]: items are entered in
    order, a later item replacing an earlier one under the same key. *)
Definition build_item_map (items : list Item) : gmap string Item :=
  foldl (fun m item => <[project_id item := item]> m) ∅ items.

(** [[item for item in items if f(item)]]. *)
Fixpoint py_filter {A} (f : A -> result bool) (items : list A) : result (list A) :=
  match items with
  | [] => Ok []
  | item :: rest =>
      b ← f item; out ← py_filter f rest;
      Ok (if b : bool then item :: out else out)
  end.

(** *** JamaFilter.__call__ *)
Definition JamaFilter_call (depth : nat) (self : JamaFilter) (items : list Item)
    (h : store) : result (list Item) :=
  let item_map := build_item_map items in
  py_filter
    (predicate_call depth item_map (h !!! named_conditions self)
       (main_condition self))
    items.

(** ** filter_jama_data

    The data are a list of items or the path of reports to parse; the
    filter is a filter object, a dictionary of conditions or the path of
    a filter file.  Parsing the reports and loading a filter file read
    files and run the schema; they are taken as given. *)

Inductive jama_data_arg : Type :=
| DataItems (items : list Item)
| DataPath (path : string).

Inductive jama_filter_arg : Type :=
| FilterObject (f : JamaFilter)
| FilterDict (conditions : nat)
| FilterPath (path : string).

Section filter_jama_data.

Variable parse_jama_reports : string -> result (list Item).
Variable load : string -> gmap nat (gmap string predicate) ->
                result JamaFilter * gmap nat (gmap string predicate).

Definition filter_jama_data (depth : nat) (jama_data : jama_data_arg)
    (jama_filter : jama_filter_arg) (h : store)
  : result (list Item) * store :=
  match match jama_data with
        | DataPath path => parse_jama_reports path
        | DataItems items => Ok items
        end with
  | Raise e => (Raise e, h)
  | Ok items =>
      match match jama_filter with
            | FilterPath path => load path h
            | FilterDict conditions => JamaFilter_init conditions h
            | FilterObject f => (Ok f, h)
            end with
      | (Raise e, h') => (Raise e, h')
      | (Ok f, h') => (JamaFilter_call depth f items h', h')
      end
  end.

End filter_jama_data.

(** ** The location string validator

    [LOCATION_RE] matches a slash that does not follow a backslash;
    [LOCATION_RE.split(v)] cuts [v] at every match, [prev] being the
    character before the rest of the string that is being cut. *)

Definition slash : ascii := ascii_of_nat 47.
Definition backslash : ascii := ascii_of_nat 92.

Fixpoint split_unescaped (prev : option ascii) (v : string) : list string :=
  match v with
  | EmptyString => [EmptyString]
  | String c rest =>
      let pieces := split_unescaped (Some c) rest in
      if bool_decide (c = slash) && negb (bool_decide (prev = Some backslash))
      then EmptyString :: pieces
      else
        match pieces with
        | piece :: more => String c piece :: more
        | [] => [String c EmptyString]
        end
  end.

(** [x.replace(old, new)] for an [old] of the two characters [a], [b]:
    the occurrences are replaced from the left, and the search goes on
    after each one. *)
Fixpoint replace_pair (a b : ascii) (new : string) (x : string) : string :=
  match x with
  | String c (String d rest as tail) =>
      if bool_decide (c = a) && bool_decide (d = b)
      then new +:+ replace_pair a b new rest
      else String c (replace_pair a b new tail)
  | _ => x
  end.

(** [_location]. *)
Definition _location (v : string) : list string :=
  (fun x =>
     replace_pair backslash backslash (String backslash EmptyString)
       (replace_pair backslash slash (String slash EmptyString) x))
  <$> split_unescaped None v.

(** A character occurs in a string. *)
Fixpoint has_char (c : ascii) (x : string) : bool :=
  match x with
  | EmptyString => false
  | String d rest => bool_decide (d = c) || has_char c rest
  end.

(** A node written with every slash escaped by a backslash. *)
Fixpoint escape_slashes (x : string) : string :=
  match x with
  | EmptyString => EmptyString
  | String c rest =>
      if bool_decide (c = slash)
      then String backslash (String slash (escape_slashes rest))
      else String c (escape_slashes rest)
  end.

(** ** dictutils.dict_update

    A value of a dictionary is a dictionary or anything else; what is not
    a dictionary is a leaf.  The result is a copy of [original] in which
    every key of [update] is written: with the merge of the two values
    when both are dictionaries, with the value of [update] otherwise.
    The keys are written independently of each other, so the order in
    which [update] is gone through does not show. *)

#[local] Set Warnings "-register-all".

Inductive pyval : Type :=
| VLeaf (s : string)
| VDict (d : gmap string pyval).

(** Writing the keys of an update into [original]: [updates] gives, for
    each key of the update, the new value as a function of what
    [original.get(k)] is. *)
Definition apply_updates (original : gmap string pyval)
    (updates : gmap string (option pyval -> pyval)) : gmap string pyval :=
  merge (fun o f =>
           match f with
           | None => o
           | Some g => Some (g o)
           end) original updates.

(** The value written under a key whose value in the update is [v] and
    whose value in the original is [o]. *)
Fixpoint update_value (v : pyval) (o : option pyval) {struct v} : pyval :=
  match v, o with
  | VDict update, Some (VDict original) =>
      VDict (apply_updates original (update_value <$> update))
  | _, _ => v
  end.

Definition dict_update (original update : gmap string pyval)
  : gmap string pyval :=
  apply_updates original (update_value <$> update).

(** The nesting depth of a value. *)
Fixpoint depth_of (v : pyval) : nat :=
  match v with
  | VLeaf _ => 0
  | VDict d => S (map_fold (fun _ n acc => n `max` acc) 0 (depth_of <$> d))
  end.

(** ** Definitions used to state the properties *)

(** The definition with no entry. *)
Definition empty_def : condition_def :=
  {| def_location := None; def_field := None; def_created := None;
     def_modified := None; def_tags := None; def_upstream := None;
     def_downstream := None |}.

(** [{'location': {'is under': path}}] and
    [{'location': {'is not under': path}}]. *)
Definition is_under_def (path : list string) : condition_def :=
  {| def_location :=
       Some {| loc_is_under := Some path; loc_is_not_under := None;
               loc_every_node := None; loc_no_node := None |};
     def_field := None; def_created := None; def_modified := None;
     def_tags := None; def_upstream := None; def_downstream := None |}.

Definition is_not_under_def (path : list string) : condition_def :=
  {| def_location :=
       Some {| loc_is_under := None; loc_is_not_under := Some path;
               loc_every_node := None; loc_no_node := None |};
     def_field := None; def_created := None; def_modified := None;
     def_tags := None; def_upstream := None; def_downstream := None |}.

(** The full path of an item. *)
Definition item_path (item : Item) : list string :=
  (location item ++ [title item])%list.

(** The two relationship directions, the definition with only that
    direction's entry, and the relationship list of an item it reads. *)
Inductive direction : Type := Upstream | Downstream.

Definition relationships_def (dir : direction) (d : rels_def) : condition_def :=
  match dir with
  | Upstream =>
      {| def_location := None; def_field := None; def_created := None;
         def_modified := None; def_tags := None; def_upstream := Some d;
         def_downstream := None |}
  | Downstream =>
      {| def_location := None; def_field := None; def_created := None;
         def_modified := None; def_tags := None; def_upstream := None;
         def_downstream := Some d |}
  end.

Definition related (dir : direction) (item : Item) : list Relationship :=
  match dir with
  | Upstream => upstream item
  | Downstream => downstream item
  end.

(** The quantification logic of a relationship definition with the name
    of its nested condition. *)
Definition rels_logic (d : rels_def) : option (string * string) :=
  dict_get_first d [RELS_ALL_MATCH; RELS_COUNT_MATCH; RELS_NONE_MATCH].

(** Whether 'count unknowns' is enabled. *)
Definition counts_unknowns (d : rels_def) : bool :=
  default false (rels_count_unknowns d).

(** A relationship passes the relationship-type filter. *)
Definition type_allowed (types : option (list string)) (r : Relationship) : Prop :=
  match types with
  | None => True
  | Some ts => rel_type r ∈ ts
  end.

#[global] Instance type_allowed_dec types r : Decision (type_allowed types r).
Proof. destruct types; simpl; apply _. Defined.

(** The relationships left by the type filter, the neighbors among them
    that the item index resolves, and the related ids it does not. *)
Definition considered (types : option (list string))
    (rels : list Relationship) : list Relationship :=
  filter (type_allowed types) rels.

Definition known_neighbors (types : option (list string))
    (item_map : gmap string Item) (rels : list Relationship) : list Item :=
  omap (fun r => item_map !! rel_project_id r) (considered types rels).

Definition unknown_ids (types : option (list string))
    (item_map : gmap string Item) (rels : list Relationship) : list string :=
  filter (fun k => item_map !! k = None)
    (rel_project_id <$> considered types rels).

(** The name of a direction's entry, and the condition object with the
    attributes of that direction only. *)
Definition direction_name (dir : direction) : string :=
  match dir with
  | Upstream => UPSTREAM_ITEMS
  | Downstream => DOWNSTREAM_ITEMS
  end.

Definition relationships_condition (dir : direction)
    (attrs : option (list string) * option (list (string * num_value)) *
             option string * option string * option bool) : Condition :=
  let '(type, count, logic, condition, unknowns) := attrs in
  let none5 : option (list string) * option (list (string * num_value)) *
              option string * option string * option bool :=
    (None, None, None, None, None) in
  let '(u_type, u_count, u_logic, u_condition, u_unknowns) :=
    match dir with Upstream => attrs | Downstream => none5 end in
  let '(d_type, d_count, d_logic, d_condition, d_unknowns) :=
    match dir with Upstream => none5 | Downstream => attrs end in
  {| location_logic := None; location_path := None;
     location_node_logic := None; location_node_value := None;
     field_name := None; field_logic := None; field_value := None;
     field_required := None;
     created_before := None; created_after := None;
     modified_before := None; modified_after := None;
     tags_include := None; tags_exclude := None;
     upstream_type := u_type; upstream_count := u_count;
     upstream_logic := u_logic; upstream_condition := u_condition;
     upstream_count_unknowns := u_unknowns;
     downstream_type := d_type; downstream_count := d_count;
     downstream_logic := d_logic; downstream_condition := d_condition;
     downstream_count_unknowns := d_unknowns |}.

(** A number satisfies a numeric comparison, as the comparison reads. *)
Definition num_satisfies (n : Z) (logic : string) (v : num_value) : Prop :=
  match v with
  | NInt m =>
      (logic = NUM_IS /\ n = m) \/ (logic = NUM_IS_NOT /\ n <> m) \/
      (logic = NUM_GREATER_THAN /\ (n > m)%Z) \/
      (logic = NUM_GREATER_THAN_EQ /\ (n >= m)%Z) \/
      (logic = NUM_LESS_THAN /\ (n < m)%Z) \/
      (logic = NUM_LESS_THAN_EQ /\ (n <= m)%Z)
  | NList l =>
      (logic = NUM_IN /\ n ∈ l) \/ (logic = NUM_NOT_IN /\ n ∉ l)
  end.

(** The comparison name goes with the shape of its value. *)
Definition numcomp_shape (logic : string) (v : num_value) : Prop :=
  match v with
  | NInt _ =>
      logic ∈ [NUM_IS; NUM_IS_NOT; NUM_GREATER_THAN; NUM_GREATER_THAN_EQ;
               NUM_LESS_THAN; NUM_LESS_THAN_EQ]
  | NList _ => logic ∈ [NUM_IN; NUM_NOT_IN]
  end.

(** NUMCOMP_SCHEMA: the dictionaries of numeric comparisons the schema
    lets through.  Either at most one comparison of the equality family,
    an integer under [is] and [is not] and a list of integers under [in]
    and [not in]; or comparisons of the ordering family on integers, at
    most one of the two lower bounds and at most one of the two upper
    bounds. *)
Definition equality_schema (count : gmap string num_value) : Prop :=
  forall k v, count !! k = Some v ->
    match v with
    | NInt _ => k ∈ [NUM_IS; NUM_IS_NOT]
    | NList _ => k ∈ [NUM_IN; NUM_NOT_IN]
    end /\
    (forall k', is_Some (count !! k') -> k' = k).

Definition ordering_schema (count : gmap string num_value) : Prop :=
  (forall k v, count !! k = Some v ->
     k ∈ [NUM_GREATER_THAN; NUM_GREATER_THAN_EQ;
          NUM_LESS_THAN; NUM_LESS_THAN_EQ] /\
     exists m, v = NInt m) /\
  ~ (is_Some (count !! NUM_GREATER_THAN) /\
     is_Some (count !! NUM_GREATER_THAN_EQ)) /\
  ~ (is_Some (count !! NUM_LESS_THAN) /\
     is_Some (count !! NUM_LESS_THAN_EQ)).

Definition NUMCOMP_SCHEMA (count : gmap string num_value) : Prop :=
  equality_schema count \/ ordering_schema count.

(** The number the count comparisons of pure counting are held against:
    the known neighbors, and the unresolved ids only when 'count
    unknowns' is enabled. *)
Definition counted (d : rels_def) (item_map : gmap string Item)
    (rels : list Relationship) : Z :=
  (Z.of_nat (length (known_neighbors (rels_with_type d) item_map rels)) +
   if counts_unknowns d
   then Z.of_nat (length (unknown_ids (rels_with_type d) item_map rels))
   else 0)%Z.

(** [{'downstream items': {'count': {'greater than': 1, 'less than': 5}}}]. *)
Definition range_count : gmap string num_value :=
  {[ NUM_GREATER_THAN := NInt 1; NUM_LESS_THAN := NInt 5 ]}.

Definition range_rels : rels_def :=
  {| rels_with_type := None; rels_count := Some range_count;
     rels_all_match := None; rels_count_match := None;
     rels_none_match := None; rels_count_unknowns := None |}.

(** The condition object built from [range_rels] on the downstream
    items. *)
Definition range_condition : Condition :=
  relationships_condition Downstream
    (None, Some [(NUM_GREATER_THAN, NInt 1%Z); (NUM_LESS_THAN, NInt 5%Z)],
     None, None, Some false).

(** The number the count comparisons of [count match] are held against:
    the known neighbors that satisfy the nested condition plus the
    unresolved ids. *)
Definition matched (sat : Item -> bool) (d : rels_def)
    (item_map : gmap string Item) (rels : list Relationship) : Z :=
  (Z.of_nat (length (filter (fun u => sat u = true)
                       (known_neighbors (rels_with_type d) item_map rels))) +
   Z.of_nat (length (unknown_ids (rels_with_type d) item_map rels)))%Z.

(** [{'count': {'is': 3}, 'count match': name}], with 'count unknowns'
    as given. *)
Definition count_is_three (name : string) (unknowns : option bool) : rels_def :=
  {| rels_with_type := None; rels_count := Some {[ NUM_IS := NInt 3 ]};
     rels_all_match := None; rels_count_match := Some name;
     rels_none_match := None; rels_count_unknowns := unknowns |}.

(** The number of predicate kinds a definition populates. *)
Definition populated_kinds (d : condition_def) : nat :=
  length (filter (fun b => b = false)
            [is_none (def_location d); is_none (def_field d);
             is_none (def_created d); is_none (def_modified d);
             is_none (def_tags d); is_none (def_upstream d);
             is_none (def_downstream d)]).

(** [{'field': fd, 'tags': td}] and [{'field': fd}]. *)
Definition field_and_tags_def (fd : field_def) (td : tags_def) : condition_def :=
  {| def_location := None; def_field := Some fd; def_created := None;
     def_modified := None; def_tags := Some td; def_upstream := None;
     def_downstream := None |}.

Definition field_only_def (fd : field_def) : condition_def :=
  {| def_location := None; def_field := Some fd; def_created := None;
     def_modified := None; def_tags := None; def_upstream := None;
     def_downstream := None |}.

(** [{'name': 'Status', 'value': {'is': 'Passed'}}] and
    [{'include': 'core'}]. *)
Definition status_passed : field_def :=
  {| fld_name := Some "Status";
     fld_value := Some {[ STR_IS := SStr "Passed" ]};
     fld_required := None |}.

Definition include_core : tags_def :=
  {| tag_include := Some "core"; tag_exclude := None |}.

(** [{'name': 'Status', 'required': False}]. *)
Definition optional_status : field_def :=
  {| fld_name := Some "Status"; fld_value := None;
     fld_required := Some false |}.

(** [{'type': ['Requirement'], 'according to any': []}],
    [{'type': ['Requirement']}] and [{}]. *)
Definition requirement_any_nothing : group_def :=
  {| grp_type := Some ["Requirement"]; grp_all := None; grp_any := Some [] |}.

Definition requirement_only : group_def :=
  {| grp_type := Some ["Requirement"]; grp_all := None; grp_any := None |}.

Definition empty_group_def : group_def :=
  {| grp_type := None; grp_all := None; grp_any := None |}.

(** ** A small trace: one requirement verified by two tests that are in
    the report and by one that is not *)

Definition verified_by (id : string) : Relationship :=
  {| rel_global_id := "GID-" +:+ id; rel_project_id := id;
     rel_type := "Verified By"; rel_project := "Avionics"; rel_name := id |}.

Definition verifies (id : string) : Relationship :=
  {| rel_global_id := "GID-" +:+ id; rel_project_id := id;
     rel_type := "Verifies"; rel_project := "Avionics"; rel_name := id |}.

Definition test_item (id : string) (status : string) : Item :=
  {| downstream := []; fields := {[ "Status" := status ]};
     location := ["Avionics"; "Tests"]; object_created := 100;
     object_modified := 200; object_type := "Test"; project_id := id;
     report_path := "report.xml"; tags := []; title := id;
     upstream := [verifies "REQ-1"] |}.

Definition test1 : Item := test_item "TEST-1" "Passed".
Definition test2 : Item := test_item "TEST-2" "Passed".

Definition req1 : Item :=
  {| downstream :=
       [verified_by "TEST-1"; verified_by "TEST-2"; verified_by "TEST-9"];
     fields := {[ "Status" := "Open" ]};
     location := ["Avionics"; "Requirements"]; object_created := 10;
     object_modified := 20; object_type := "Requirement";
     project_id := "REQ-1"; report_path := "report.xml"; tags := ["core"];
     title := "Login"; upstream := [] |}.

Definition trace : list Item := [req1; test1; test2].

(** The condition object of [{'field': status_passed}] and the registry
    that names it [passed]. *)
Definition passed_condition : Condition :=
  {| location_logic := None; location_path := None;
     location_node_logic := None; location_node_value := None;
     field_name := Some "Status"; field_logic := Some STR_IS;
     field_value := Some (SStr "Passed"); field_required := Some true;
     created_before := None; created_after := None;
     modified_before := None; modified_after := None;
     tags_include := None; tags_exclude := None;
     upstream_type := None; upstream_count := None;
     upstream_logic := None; upstream_condition := None;
     upstream_count_unknowns := None;
     downstream_type := None; downstream_count := None;
     downstream_logic := None; downstream_condition := None;
     downstream_count_unknowns := None |}.

Definition registry : gmap string predicate :=
  {[ "passed" := PCondition passed_condition ]}.

(** [{'all match': 'passed'}]. *)
Definition all_passed : rels_def :=
  {| rels_with_type := None; rels_count := None;
     rels_all_match := Some "passed"; rels_count_match := None;
     rels_none_match := None; rels_count_unknowns := None |}.

(** A store whose dictionary 7 is a filter definition: the main condition
    and the named condition [passed]. *)
Definition filter_store : gmap nat (gmap string predicate) :=
  {[ 7 := <[ "main" := PCondition range_condition ]> registry ]}.

Definition range_filter : JamaFilter :=
  {| main_condition := PCondition range_condition; named_conditions := 7 |}.

(** ** Definitions with one entry of the other kinds *)





(** [{'tags': td}]. *)
Definition tags_only_def (td : tags_def) : condition_def :=
  {| def_location := None; def_field := None; def_created := None;
     def_modified := None; def_tags := Some td; def_upstream := None;
     def_downstream := None |}.

(** [{'location': {'every node': comp}}] and
    [{'location': {'no node': comp}}]. *)
Definition every_node_def (comp : gmap string str_value) : condition_def :=
  {| def_location :=
       Some {| loc_is_under := None; loc_is_not_under := None;
               loc_every_node := Some comp; loc_no_node := None |};
     def_field := None; def_created := None; def_modified := None;
     def_tags := None; def_upstream := None; def_downstream := None |}.

Definition no_node_def (comp : gmap string str_value) : condition_def :=
  {| def_location :=
       Some {| loc_is_under := None; loc_is_not_under := None;
               loc_every_node := None; loc_no_node := Some comp |};
     def_field := None; def_created := None; def_modified := None;
     def_tags := None; def_upstream := None; def_downstream := None |}.

(** The string comparison a field definition configures, if any. *)
Definition field_comparison (fd : field_def) : option (string * str_value) :=
  match fld_value fd with
  | Some comp => dict_get_first comp STR_KEYS
  | None => None
  end.

(** [{'name': 'Status', 'value': {'is': 'Open'}, 'required': False}]. *)
Definition open_if_present : field_def :=
  {| fld_name := Some "Status";
     fld_value := Some {[ STR_IS := SStr "Open" ]};
     fld_required := Some false |}.

(** The condition object with the attributes of a node comparison
    only; [kind] is [every node] or [no node]. *)
Definition node_condition (kind logic : string) (value : str_value) : Condition :=
  {| location_logic := Some kind; location_path := None;
     location_node_logic := Some logic; location_node_value := Some value;
     field_name := None; field_logic := None; field_value := None;
     field_required := None;
     created_before := None; created_after := None;
     modified_before := None; modified_after := None;
     tags_include := None; tags_exclude := None;
     upstream_type := None; upstream_count := None;
     upstream_logic := None; upstream_condition := None;
     upstream_count_unknowns := None;
     downstream_type := None; downstream_count := None;
     downstream_logic := None; downstream_condition := None;
     downstream_count_unknowns := None |}.

(** The names of the numeric comparisons. *)
Definition NUM_KEYS : list string :=
  [NUM_IS; NUM_IS_NOT; NUM_IN; NUM_NOT_IN; NUM_GREATER_THAN;
   NUM_GREATER_THAN_EQ; NUM_LESS_THAN; NUM_LESS_THAN_EQ].

(** What [all match] and [none match] ask of a known neighbor on which
    the nested condition gives [b]. *)
Definition quantified (logic : string) (b : bool) : bool :=
  if bool_decide (logic = RELS_ALL_MATCH) then b else negb b.

(** How a group combines the results of its members. *)
Definition combined (logic : option string) (results : list bool) : bool :=
  if bool_decide (logic = Some GROUP_ALL) then forallb id results
  else if bool_decide (logic = Some GROUP_ANY) then existsb id results
  else true.

(** An item passes the type filter of a group. *)
Definition type_passes (type : option (list string)) (item : Item) : Prop :=
  match type with
  | None => True
  | Some types => object_type item ∈ types
  end.

(** Every result [call] returns, [call'] returns too. *)
Definition extends (call call' : predicate -> Item -> result bool) : Prop :=
  forall p u b, call p u = Ok b -> call' p u = Ok b.

(** The groups [{'according to any': [p, q]}] and
    [{'according to all': [p, q]}] of two condition objects. *)
Definition any_of (p q : predicate) : predicate :=
  PGroup (MkConditionGroup None (Some GROUP_ANY) (Some [MObject p; MObject q])).

Definition all_of (p q : predicate) : predicate :=
  PGroup (MkConditionGroup None (Some GROUP_ALL) (Some [MObject p; MObject q])).

(** The filter with a main condition and the registry at a reference. *)
Definition filter_of (main : predicate) (r : nat) : JamaFilter :=
  {| main_condition := main; named_conditions := r |}.

(** A condition on the item's own attributes: it has no relationship
    attribute. *)
Definition own_attributes (c : Condition) : Prop :=
  upstream_logic c = None /\ upstream_count c = None /\
  downstream_logic c = None /\ downstream_count c = None /\
  (location_logic c <> None \/ field_name c <> None \/
   created_after c <> None \/ created_before c <> None \/
   modified_after c <> None \/ modified_before c <> None \/
   tags_include c <> None \/ tags_exclude c <> None).

(** * Properties *)

(** ** Generators over functions that do not raise *)

Lemma py_all_pure {A} (f : A -> bool) (l : list A) :
  py_all (fun x => Ok (f x)) l = Ok (forallb f l).
Proof.
  induction l as [|x l IH]; simpl; [done|].
  destruct (f x); simpl; [apply IH | done].
Qed.

Lemma py_all_ext {A} (f g : A -> result bool) (l : list A) :
  (forall x, x ∈ l -> f x = g x) -> py_all f l = py_all g l.
Proof.
  induction l as [|x l IH]; intros Hfg; simpl; [done|].
  rewrite (Hfg x) by apply list_elem_of_here.
  rewrite IH; [done|]. intros y Hy. apply Hfg. by apply list_elem_of_further.
Qed.

Lemma py_count_ext {A} (f g : A -> result bool) (l : list A) :
  (forall x, x ∈ l -> f x = g x) -> py_count f l = py_count g l.
Proof.
  induction l as [|x l IH]; intros Hfg; simpl; [done|].
  rewrite (Hfg x) by apply list_elem_of_here.
  rewrite IH; [done|]. intros y Hy. apply Hfg. by apply list_elem_of_further.
Qed.

Lemma py_count_pure {A} (f : A -> bool) (l : list A) :
  py_count (fun x => Ok (f x)) l
  = Ok (Z.of_nat (length (filter (fun x => f x = true) l))).
Proof.
  induction l as [|x l IH]; simpl; [done|].
  rewrite IH. simpl. f_equal.
  rewrite filter_cons. destruct (f x) eqn:Hx.
  - rewrite decide_True by done. simpl. lia.
  - rewrite decide_False by done. lia.
Qed.

(** ** Location paths *)

Lemma getitem_middle {A} (pre : list A) (x : A) (l : list A) :
  getitem (pre ++ x :: l)%list (length pre) = Ok x.
Proof. unfold getitem. by rewrite list_lookup_middle. Qed.

(** The positional comparison of [is under], once the item path is known
    to be long enough, decides whether the path is a prefix of the item
    path; no index is out of range. *)
Lemma under_scan (path pre l : list string) :
  length path <= length l ->
  py_all (fun '(i, node) =>
            x ← getitem (pre ++ l)%list i; Ok (bool_decide (x = node)))
    (zip (seq (length pre) (length path)) path)
  = Ok (bool_decide (path `prefix_of` l)).
Proof.
  revert pre l. induction path as [|node path IH]; intros pre l Hlen.
  - cbn [length seq zip_with py_all].
    rewrite bool_decide_eq_true_2; [done | apply prefix_nil].
  - destruct l as [|x l]; [simpl in Hlen; lia|].
    cbn [length seq zip zip_with py_all].
    rewrite getitem_middle. cbn [mbind result_bind].
    destruct (decide (x = node)) as [->|Hne].
    + rewrite bool_decide_eq_true_2 by done.
      specialize (IH (pre ++ [node])%list l).
      rewrite length_app in IH. simpl in IH. rewrite Nat.add_1_r in IH.
      rewrite <- app_assoc in IH. simpl in IH.
      rewrite IH by (simpl in Hlen; lia).
      f_equal. apply bool_decide_ext. split.
      * apply prefix_cons.
      * apply prefix_cons_inv_2.
    + rewrite bool_decide_eq_false_2 by done.
      rewrite bool_decide_eq_false_2; [done|].
      intros Hp. apply prefix_cons_inv_1 in Hp. congruence.
Qed.

Lemma under_scan_path (path item_path : list string) :
  length path <= length item_path ->
  py_all (fun '(i, node) =>
            x ← getitem item_path i; Ok (bool_decide (x = node)))
    (enumerate path)
  = Ok (bool_decide (path `prefix_of` item_path)).
Proof. intros Hlen. apply (under_scan path [] item_path Hlen). Qed.

(** C7: for every item and every configured path, the condition built from
    [is not under path] evaluates to the negation of the condition built
    from [is under path]; [is under] holds exactly when the path is a
    prefix of the item's full path [location + [title]], so an item whose
    full path is shorter than the path is not under it. *)
Theorem is_not_under_complement (path : list string) (item : Item)
    (call : predicate -> Item -> result bool) (item_map : gmap string Item)
    (named : gmap string predicate) :
  exists (under not_under : Condition) (b : bool),
    Condition_init (is_under_def path) = Ok under /\
    Condition_init (is_not_under_def path) = Ok not_under /\
    Condition_call call under item item_map named = Ok b /\
    Condition_call call not_under item item_map named = Ok (negb b) /\
    (b = true <-> path `prefix_of` item_path item) /\
    (length (item_path item) < length path -> b = false).
Proof.
  eexists _, _, (bool_decide (path `prefix_of` item_path item)).
  split; [reflexivity|]. split; [reflexivity|].
  unfold Condition_call. cbn [location_logic location_path].
  rewrite (bool_decide_eq_true_2 (Some LOCATION_IS_UNDER = _)) by done.
  rewrite (bool_decide_eq_false_2 (Some LOCATION_IS_NOT_UNDER = _)) by done.
  rewrite (bool_decide_eq_true_2 (Some LOCATION_IS_NOT_UNDER = _)) by done.
  fold (item_path item).
  assert (Hshort : length (item_path item) < length path ->
                   bool_decide (path `prefix_of` item_path item) = false).
  { intros Hlt. apply bool_decide_eq_false_2. intros Hp.
    apply prefix_length in Hp. lia. }
  destruct (Nat.ltb_spec (length (item_path item)) (length path)) as [Hlt|Hge].
  - rewrite (Hshort Hlt). repeat split; try done.
    intros Hp. apply prefix_length in Hp. lia.
  - rewrite under_scan_path by done. cbn [fmap result_fmap].
    repeat split; try done.
    + apply bool_decide_eq_true_1.
    + apply bool_decide_eq_true_2.
Qed.

(** ** Collecting the related items *)

Lemma collect_step_skip types item_map acc r :
  ~ type_allowed types r -> collect_step types item_map acc r = acc.
Proof.
  intros Hna. unfold collect_step. destruct acc as [k n].
  destruct types as [ts|]; simpl in *; [|tauto].
  by rewrite bool_decide_eq_false_2.
Qed.

Lemma collect_step_take types item_map k n r :
  type_allowed types r ->
  collect_step types item_map (k, n) r =
  match item_map !! rel_project_id r with
  | None => (k, (n + 1)%Z)
  | Some u => ((k ++ [u])%list, n)
  end.
Proof.
  intros Ha. unfold collect_step.
  destruct types as [ts|]; simpl in *; [|done].
  by rewrite bool_decide_eq_true_2.
Qed.

Lemma collect_fold types item_map rels k n :
  foldl (collect_step types item_map) (k, n) rels =
  ((k ++ known_neighbors types item_map rels)%list,
   (n + Z.of_nat (length (unknown_ids types item_map rels)))%Z).
Proof.
  revert k n. induction rels as [|r rels IH]; intros k n.
  - simpl. by rewrite app_nil_r, Z.add_0_r.
  - cbn [foldl]. unfold known_neighbors, unknown_ids, considered in *.
    rewrite filter_cons. destruct (decide (type_allowed types r)) as [Ha|Hna].
    + rewrite collect_step_take by done. cbn [omap list_omap fmap list_fmap].
      rewrite filter_cons.
      destruct (item_map !! rel_project_id r) as [u|] eqn:Hu.
      * rewrite decide_False by done. rewrite IH.
        by rewrite <- app_assoc.
      * rewrite decide_True by done. rewrite IH. cbn [length].
        f_equal. lia.
    + rewrite collect_step_skip by done. apply IH.
Qed.

(** The loop collects the known neighbors in order and counts the
    unresolved ids. *)
Lemma collect_related_spec types item_map rels :
  collect_related types item_map rels =
  (known_neighbors types item_map rels,
   Z.of_nat (length (unknown_ids types item_map rels))).
Proof. unfold collect_related. by rewrite collect_fold. Qed.

(** ** Relationship conditions: construction and call *)

Lemma Condition_init_relationships dir d :
  Condition_init (relationships_def dir d) =
  relationships_condition dir <$> init_relationships (direction_name dir) (Some d).
Proof.
  destruct dir; unfold Condition_init; cbn -[init_relationships];
    destruct (init_relationships _ (Some d)) as [[[[[t c] l] n] u]|e];
    reflexivity.
Qed.

Lemma init_relationships_ok cnd d attrs :
  init_relationships cnd (Some d) = Ok attrs ->
  exists count,
    attrs = (rels_with_type d, count, fst <$> rels_logic d,
             snd <$> rels_logic d, Some (counts_unknowns d)) /\
    match rels_count d with
    | Some cd => exists comps, init_count cnd cd = Ok comps /\ count = Some comps
    | None => count = None
    end /\
    negb (is_none (fst <$> rels_logic d) && is_none count) = true /\
    (count = None -> fst <$> rels_logic d <> Some RELS_COUNT_MATCH) /\
    (count <> None -> fst <$> rels_logic d = None \/
                      fst <$> rels_logic d = Some RELS_COUNT_MATCH).
Proof.
  unfold init_relationships. fold (rels_logic d). fold (counts_unknowns d).
  intros Hinit.
  assert (Hcount : exists count,
             match rels_count d with
             | Some cd => Some <$> init_count cnd cd
             | None => Ok None
             end = Ok count /\
             match rels_count d with
             | Some cd =>
                 exists comps, init_count cnd cd = Ok comps /\ count = Some comps
             | None => count = None
             end).
  { destruct (rels_count d) as [cd|].
    - destruct (init_count cnd cd) as [comps|e] eqn:Hc; [|done].
      exists (Some comps). split; [done|]. by exists comps.
    - by exists None. }
  destruct Hcount as (count & Hceq & Hcspec).
  rewrite Hceq in Hinit. cbn [mbind result_bind] in Hinit.
  exists count.
  destruct (rels_logic d) as [[logic name]|] eqn:Hl; cbn in Hinit |- *;
    destruct count as [comps|]; cbn in Hinit |- *.
  - case_bool_decide as Hin; [|done]. inversion Hinit; subst.
    repeat split; try done.
    intros _. apply list_elem_of_In in Hin. cbn in Hin.
    destruct Hin as [Hin|[Hin|[]]]; [done | by right].
  - case_bool_decide as Hcm; [done|]. inversion Hinit; subst.
    repeat split; done.
  - inversion Hinit; subst. repeat split; try done. intros _. by left.
  - done.
Qed.

Lemma relationships_condition_call call dir types count logic name unknowns
    item item_map named :
  negb (is_none logic && is_none count) = true ->
  Condition_call call
    (relationships_condition dir (types, count, logic, name, unknowns))
    item item_map named =
  (condition ← nested_condition name named;
   _evaluate_relationships call (related dir item) types logic unknowns count
     condition item_map).
Proof.
  intros Hsome. destruct dir; unfold Condition_call; cbn; rewrite Hsome; done.
Qed.

Lemma relationships_init_call call dir d c item item_map named :
  Condition_init (relationships_def dir d) = Ok c ->
  exists count,
    match rels_count d with
    | Some cd =>
        exists comps,
          init_count (direction_name dir) cd = Ok comps /\ count = Some comps
    | None => count = None
    end /\
    (count = None -> fst <$> rels_logic d <> Some RELS_COUNT_MATCH) /\
    (count <> None -> fst <$> rels_logic d = None \/
                      fst <$> rels_logic d = Some RELS_COUNT_MATCH) /\
    Condition_call call c item item_map named =
    (condition ← nested_condition (snd <$> rels_logic d) named;
     _evaluate_relationships call (related dir item) (rels_with_type d)
       (fst <$> rels_logic d) (Some (counts_unknowns d)) count condition
       item_map).
Proof.
  rewrite Condition_init_relationships.
  destruct (init_relationships _ (Some d)) as [attrs|e] eqn:Hinit; [|done].
  intros [= <-].
  apply init_relationships_ok in Hinit
    as (count & -> & Hcount & Hsome & Hnone & Hcm).
  exists count. repeat split; try done.
  by apply relationships_condition_call.
Qed.

Lemma unknown_ids_nonempty types item_map rels r :
  r ∈ rels -> type_allowed types r -> item_map !! rel_project_id r = None ->
  (Z.of_nat (length (unknown_ids types item_map rels)) >? 0)%Z = true.
Proof.
  intros Hr Ha Hnone.
  assert (Hin : rel_project_id r ∈ unknown_ids types item_map rels).
  { unfold unknown_ids, considered. apply list_elem_of_filter. split; [done|].
    apply list_elem_of_fmap_2. apply list_elem_of_filter. done. }
  destruct (unknown_ids types item_map rels); [by apply elem_of_nil in Hin|].
  apply Z.gtb_lt. cbn [length]. lia.
Qed.

(** C1: for an upstream or downstream relationship condition whose logic
    is [all match] or [none match] with 'count unknowns' disabled, if a
    relationship that passes the type filter has a related id absent from
    the item index, evaluation returns false, whatever the nested named
    condition does on the known neighbors. *)
Theorem unknown_neighbor_vetoes (dir : direction) (d : rels_def)
    (logic name : string) (c : Condition) (nested : predicate)
    (item : Item) (item_map : gmap string Item)
    (named : gmap string predicate) (r : Relationship) :
  rels_logic d = Some (logic, name) ->
  logic = RELS_ALL_MATCH \/ logic = RELS_NONE_MATCH ->
  counts_unknowns d = false ->
  Condition_init (relationships_def dir d) = Ok c ->
  named !! name = Some nested ->
  r ∈ related dir item ->
  type_allowed (rels_with_type d) r ->
  item_map !! rel_project_id r = None ->
  (forall call, Condition_call call c item item_map named = Ok false) /\
  (forall depth,
     predicate_call (S depth) item_map named (PCondition c) item = Ok false).
Proof.
  intros Hl Hlogic Hcu Hinit Hnamed Hr Ha Hnone.
  assert (Hcall : forall call,
             Condition_call call c item item_map named = Ok false).
  { intros call.
    destruct (relationships_init_call call dir d c item item_map named Hinit)
      as (count & _ & _ & _ & ->).
    rewrite Hl, Hcu. cbn [fmap option_fmap option_map fst snd nested_condition].
    rewrite Hnamed. cbn [mbind result_bind].
    unfold _evaluate_relationships. rewrite collect_related_spec.
    cbn [is_none default negb andb].
    rewrite (unknown_ids_nonempty _ _ _ r) by done.
    rewrite bool_decide_eq_true_2; [done|].
    destruct Hlogic as [-> | ->]; set_solver. }
  split; [done|]. intros depth. cbn [predicate_call]. apply Hcall.
Qed.

(** ** Numeric comparisons *)

Lemma dict_get_first_Some {A} (d : gmap string A) keys k v :
  dict_get_first d keys = Some (k, v) -> k ∈ keys /\ d !! k = Some v.
Proof.
  induction keys as [|key keys IH]; simpl; [done|].
  destruct (d !! key) as [w|] eqn:Hw.
  - intros [= <- <-]. split; [apply list_elem_of_here | done].
  - intros Hrest. destruct (IH Hrest) as [Hin Hv].
    split; [by apply list_elem_of_further | done].
Qed.

Lemma dict_get_first_None {A} (d : gmap string A) keys :
  dict_get_first d keys = None -> forall k, k ∈ keys -> d !! k = None.
Proof.
  induction keys as [|key keys IH]; simpl; intros Hnone k Hk.
  - by apply elem_of_nil in Hk.
  - destruct (d !! key) as [w|] eqn:Hw; [done|].
    apply elem_of_cons in Hk as [-> | Hk]; [done | by apply IH].
Qed.

Ltac in_list :=
  repeat first [apply list_elem_of_here | apply list_elem_of_further].

Ltac list_cases H :=
  repeat (apply elem_of_cons in H as [H | H]);
  [.. | by apply elem_of_nil in H].

(** On a comparison of a shape the schema admits, [_numcomp] returns, and
    returns true exactly when the number satisfies the comparison. *)
Lemma _numcomp_spec n logic v :
  numcomp_shape logic v ->
  exists b, _numcomp n v logic = Ok b /\ (b = true <-> num_satisfies n logic v).
Proof.
  unfold numcomp_shape. destruct v as [m|l]; intros Hshape; list_cases Hshape;
    subst logic; eexists; (split; [reflexivity|]); unfold num_satisfies.
  - rewrite Z.eqb_eq. split; [by left|]. intros [[_ H]|H]; [done|].
    repeat destruct H as [[? _]|H]; try done. by destruct H.
  - rewrite negb_true_iff, Z.eqb_neq. split; [right; by left|].
    intros [[? _]|[[_ H]|H]]; [done..|].
    repeat destruct H as [[? _]|H]; try done. by destruct H.
  - rewrite Z.gtb_gt. split; [right; right; by left|].
    intros [[? _]|[[? _]|[[_ H]|H]]]; [done..|].
    repeat destruct H as [[? _]|H]; try done. by destruct H.
  - rewrite Z.geb_ge. split; [right; right; right; by left|].
    intros [[? _]|[[? _]|[[? _]|[[_ H]|H]]]]; [done..|].
    repeat destruct H as [[? _]|H]; try done. by destruct H.
  - rewrite Z.ltb_lt. split; [right; right; right; right; by left|].
    intros [[? _]|[[? _]|[[? _]|[[? _]|[[_ H]|[? _]]]]]]; done.
  - rewrite Z.leb_le. split; [right; right; right; right; by right|].
    intros [[? _]|[[? _]|[[? _]|[[? _]|[[? _]|[_ H]]]]]]; done.
  - rewrite bool_decide_eq_true. split; [by left|].
    intros [[_ H]|[? _]]; done.
  - rewrite negb_true_iff, bool_decide_eq_false. split; [by right|].
    intros [[? _]|[_ H]]; done.
Qed.

Lemma count_holds_spec n comps :
  (forall k v, (k, v) ∈ comps -> numcomp_shape k v) ->
  exists b, count_holds n (Some comps) = Ok b /\
            (b = true <-> forall k v, (k, v) ∈ comps -> num_satisfies n k v).
Proof.
  unfold count_holds. induction comps as [|[k v] comps IH]; intros Hshape.
  - exists true. split; [done|]. split; [|done].
    intros _ k v Hin. by apply elem_of_nil in Hin.
  - destruct (_numcomp_spec n k v) as (b & Hb & Hbspec).
    { apply Hshape, list_elem_of_here. }
    cbn [py_all]. rewrite Hb. cbn [mbind result_bind].
    destruct b.
    + destruct IH as (b' & Hb' & Hspec').
      { intros k' v' Hin. by apply Hshape, list_elem_of_further. }
      exists b'. split; [done|]. rewrite Hspec'. split.
      * intros Hall k' v' Hin.
        apply elem_of_cons in Hin as [[= -> ->] | Hin]; [|by apply Hall].
        by apply Hbspec.
      * intros Hall k' v' Hin. by apply Hall, list_elem_of_further.
    + exists false. split; [done|]. split; [done|].
      intros Hall. apply Hbspec, Hall, list_elem_of_here.
Qed.

Lemma schema_shape count k v :
  NUMCOMP_SCHEMA count -> count !! k = Some v -> numcomp_shape k v.
Proof.
  intros [Heq | [Hord _]] Hkv.
  - destruct (Heq k v Hkv) as [Hk _]. unfold numcomp_shape.
    destruct v; list_cases Hk; subst k; in_list.
  - destruct (Hord k v Hkv) as [Hk [m ->]]. unfold numcomp_shape.
    list_cases Hk; subst k; in_list.
Qed.

(** Under the schema the constructor keeps every comparison of the
    dictionary, and nothing else. *)
Lemma init_count_entries cnd count comps :
  NUMCOMP_SCHEMA count -> init_count cnd count = Ok comps ->
  forall k v, (k, v) ∈ comps <-> count !! k = Some v.
Proof.
  intros Hschema. unfold init_count.
  destruct (dict_get_first count [NUM_IS; NUM_IS_NOT; NUM_IN; NUM_NOT_IN])
    as [[logic value]|] eqn:Hfirst.
  - intros [= <-] k v. apply dict_get_first_Some in Hfirst as [Hin Hlv].
    rewrite list_elem_of_singleton. split.
    + by intros [= -> ->].
    + intros Hkv. destruct Hschema as [Heq | [Hord _]].
      * destruct (Heq logic value Hlv) as [_ Huniq].
        assert (k = logic) as -> by (apply Huniq; eauto).
        congruence.
      * destruct (Hord logic value Hlv) as [Hk _].
        list_cases Hin; subst logic; list_cases Hk; done.
  - match goal with |- context [omap ?f ?l] => set (found := omap f l) end.
    case_bool_decide as Hlen; [done|]. intros [= <-] k v.
    unfold found. rewrite list_elem_of_omap. split.
    + intros (logic & _ & Hl).
      destruct (count !! logic) as [w|] eqn:Hw; [|done].
      by injection Hl as [= <- <-].
    + intros Hkv. exists k. rewrite Hkv. split; [|done].
      destruct Hschema as [Heq | [Hord _]].
      * destruct (Heq k v Hkv) as [Hk _].
        assert (count !! k = None); [|congruence].
        apply (dict_get_first_None _ _ Hfirst).
        destruct v; list_cases Hk; subst k; in_list.
      * by destruct (Hord k v Hkv) as [Hk _].
Qed.

Lemma count_holds_schema cnd count comps n :
  NUMCOMP_SCHEMA count -> init_count cnd count = Ok comps ->
  exists b, count_holds n (Some comps) = Ok b /\
            (b = true <-> forall k v, count !! k = Some v -> num_satisfies n k v).
Proof.
  intros Hschema Hinit.
  pose proof (init_count_entries cnd count comps Hschema Hinit) as Hentries.
  destruct (count_holds_spec n comps) as (b & Hb & Hspec).
  { intros k v Hin. apply (schema_shape count); [done|]. by apply Hentries. }
  exists b. split; [done|]. rewrite Hspec.
  split; intros Hall k v Hkv; apply Hall; by apply Hentries.
Qed.

Lemma range_count_schema : NUMCOMP_SCHEMA range_count.
Proof.
  right. unfold ordering_schema, range_count. split; [|split].
  - intros k v. rewrite lookup_insert. case_decide as Hgt.
    + intros [= <-]. subst k. split; [in_list | by eexists].
    + rewrite lookup_singleton. case_decide as Hlt; [|done].
      intros [= <-]. subst k. split; [in_list | by eexists].
  - intros [_ [v Hv]]. by vm_compute in Hv.
  - intros [_ [v Hv]]. by vm_compute in Hv.
Qed.

Lemma range_condition_init :
  Condition_init (relationships_def Downstream range_rels) = Ok range_condition.
Proof. reflexivity. Qed.

Lemma range_condition_call call item item_map named :
  Condition_call call range_condition item item_map named =
  let n := Z.of_nat (length (known_neighbors None item_map (downstream item))) in
  Ok ((n >? 1)%Z && (n <? 5)%Z).
Proof.
  unfold range_condition. rewrite relationships_condition_call by done.
  cbn [nested_condition mbind result_bind].
  unfold _evaluate_relationships. rewrite collect_related_spec.
  cbn [is_none default]. cbn [count_holds py_all].
  change (_numcomp ?n (NInt 1) NUM_GREATER_THAN) with (Ok (A:=bool) (n >? 1)%Z).
  change (_numcomp ?n (NInt 5) NUM_LESS_THAN) with (Ok (A:=bool) (n <? 5)%Z).
  cbn [mbind result_bind]. cbn [related].
  destruct (_ >? 1)%Z; [|done]. by destruct (_ <? 5)%Z.
Qed.

(** C3: for a relationship condition with no match logic, evaluation
    returns, and returns true exactly when every configured count
    comparison holds of [n], the number of type-filtered resolved
    neighbors plus, only with 'count unknowns' enabled, the number of
    unresolved ids.  With [greater than: 1] and [less than: 5] on the
    downstream items it accepts 2, 3 and 4 and rejects 1 and 5. *)
Theorem pure_counting :
  (forall (dir : direction) (d : rels_def) (count : gmap string num_value)
          (c : Condition) (item : Item) (item_map : gmap string Item)
          (named : gmap string predicate)
          (call : predicate -> Item -> result bool),
     rels_logic d = None ->
     rels_count d = Some count ->
     NUMCOMP_SCHEMA count ->
     Condition_init (relationships_def dir d) = Ok c ->
     exists b,
       Condition_call call c item item_map named = Ok b /\
       (b = true <->
        forall k v, count !! k = Some v ->
          num_satisfies (counted d item_map (related dir item)) k v)) /\
  (exists c,
     Condition_init (relationships_def Downstream range_rels) = Ok c /\
     forall (call : predicate -> Item -> result bool) (item : Item)
            (item_map : gmap string Item) (named : gmap string predicate),
       let n := length (known_neighbors None item_map (downstream item)) in
       (n = 2 \/ n = 3 \/ n = 4 ->
        Condition_call call c item item_map named = Ok true) /\
       (n = 1 \/ n = 5 ->
        Condition_call call c item item_map named = Ok false)).
Proof.
  split.
  - intros dir d count c item item_map named call Hl Hcount Hschema Hinit.
    destruct (relationships_init_call call dir d c item item_map named Hinit)
      as (cnt & Hcnt & _ & _ & ->).
    rewrite Hcount in Hcnt. destruct Hcnt as (comps & Hcomps & ->).
    rewrite Hl. cbn [fmap option_fmap option_map nested_condition].
    cbn [mbind result_bind].
    unfold _evaluate_relationships. rewrite collect_related_spec.
    unfold counted.
    destruct (counts_unknowns d); cbn [is_none default id];
      rewrite ?Z.add_0_r; apply (count_holds_schema _ _ _ _ Hschema Hcomps).
  - exists range_condition. split; [apply range_condition_init|].
    intros call item item_map named n. rewrite range_condition_call.
    fold n. cbn zeta.
    split; intros Hn; repeat destruct Hn as [Hn|Hn]; rewrite Hn; reflexivity.
Qed.

Lemma call_nested_known call nested sat (l : list Item) :
  (forall u, u ∈ l -> call nested u = Ok (sat u)) ->
  py_count (call_nested call (Some nested)) l
  = Ok (Z.of_nat (length (filter (fun u => sat u = true) l))).
Proof.
  intros Hsat. rewrite <- py_count_pure. apply py_count_ext.
  intros u Hu. cbn [call_nested]. by apply Hsat.
Qed.

Lemma count_match_call call dir d name count c nested sat item item_map named :
  rels_logic d = Some (RELS_COUNT_MATCH, name) ->
  rels_count d = Some count ->
  Condition_init (relationships_def dir d) = Ok c ->
  named !! name = Some nested ->
  (forall u,
     u ∈ known_neighbors (rels_with_type d) item_map (related dir item) ->
     call nested u = Ok (sat u)) ->
  exists comps,
    init_count (direction_name dir) count = Ok comps /\
    Condition_call call c item item_map named =
    count_holds (matched sat d item_map (related dir item)) (Some comps).
Proof.
  intros Hl Hcount Hinit Hnamed Hsat.
  destruct (relationships_init_call call dir d c item item_map named Hinit)
    as (cnt & Hcnt & _ & _ & ->).
  rewrite Hcount in Hcnt. destruct Hcnt as (comps & Hcomps & ->).
  exists comps. split; [done|].
  rewrite Hl. cbn [fmap option_fmap option_map fst snd nested_condition].
  rewrite Hnamed. cbn [mbind result_bind].
  unfold _evaluate_relationships. rewrite collect_related_spec.
  cbn [is_none].
  rewrite (bool_decide_eq_false_2 (Some RELS_COUNT_MATCH ∈ _)).
  2:{ intros Hin. list_cases Hin; done. }
  rewrite andb_false_r.
  rewrite bool_decide_eq_true_2 by done.
  rewrite (call_nested_known call nested sat) by done.
  reflexivity.
Qed.

(** C2: for a relationship condition with [count match] logic, evaluation
    returns true exactly when every configured count comparison holds of
    the number of known neighbors that satisfy the nested named condition
    plus the number of unresolved ids; the unresolved ids are added
    whatever 'count unknowns' says.  Two matching known neighbors and one
    unknown neighbor satisfy [count: {is: 3}]. *)
Theorem count_match_adds_unknowns :
  (forall (dir : direction) (d : rels_def) (name : string)
          (count : gmap string num_value) (c : Condition) (nested : predicate)
          (sat : Item -> bool) (item : Item) (item_map : gmap string Item)
          (named : gmap string predicate)
          (call : predicate -> Item -> result bool),
     rels_logic d = Some (RELS_COUNT_MATCH, name) ->
     rels_count d = Some count ->
     NUMCOMP_SCHEMA count ->
     Condition_init (relationships_def dir d) = Ok c ->
     named !! name = Some nested ->
     (forall u,
        u ∈ known_neighbors (rels_with_type d) item_map (related dir item) ->
        call nested u = Ok (sat u)) ->
     exists b,
       Condition_call call c item item_map named = Ok b /\
       (b = true <->
        forall k v, count !! k = Some v ->
          num_satisfies (matched sat d item_map (related dir item)) k v)) /\
  (forall (dir : direction) (name : string) (unknowns : option bool)
          (nested : predicate) (item : Item) (item_map : gmap string Item)
          (named : gmap string predicate)
          (call : predicate -> Item -> result bool) (u1 u2 : Item) (k : string),
     named !! name = Some nested ->
     known_neighbors None item_map (related dir item) = [u1; u2] ->
     call nested u1 = Ok true ->
     call nested u2 = Ok true ->
     unknown_ids None item_map (related dir item) = [k] ->
     exists c,
       Condition_init (relationships_def dir (count_is_three name unknowns))
       = Ok c /\
       Condition_call call c item item_map named = Ok true).
Proof.
  split.
  - intros dir d name count c nested sat item item_map named call
      Hl Hcount Hschema Hinit Hnamed Hsat.
    destruct (count_match_call call dir d name count c nested sat item
                item_map named Hl Hcount Hinit Hnamed Hsat)
      as (comps & Hcomps & ->).
    apply (count_holds_schema _ _ _ _ Hschema Hcomps).
  - intros dir name unknowns nested item item_map named call u1 u2 k
      Hnamed Hknown Hu1 Hu2 Hunknown.
    destruct (Condition_init
                (relationships_def dir (count_is_three name unknowns)))
      as [c|e] eqn:Hinit.
    2:{ rewrite Condition_init_relationships in Hinit.
        destruct dir; discriminate Hinit. }
    exists c. split; [done|].
    destruct (count_match_call call dir (count_is_three name unknowns) name
                {[ NUM_IS := NInt 3 ]} c nested (fun _ => true) item item_map
                named) as (comps & Hcomps & ->); try done.
    + cbn [count_is_three rels_with_type]. rewrite Hknown.
      intros u Hu. list_cases Hu; by subst u.
    + destruct dir; injection Hcomps as <-;
        unfold matched; cbn [count_is_three rels_with_type];
        rewrite Hknown, Hunknown; reflexivity.
Qed.

(** ** The filter *)

Lemma build_item_map_snoc items item :
  build_item_map (items ++ [item]) =
  <[project_id item := item]> (build_item_map items).
Proof. unfold build_item_map. by rewrite foldl_snoc. Qed.

(** The index maps an id to the last item of the input with that id. *)
Lemma build_item_map_lookup items k :
  build_item_map items !! k = last (filter (fun it => project_id it = k) items).
Proof.
  induction items as [|item items IH] using rev_ind; [done|].
  rewrite build_item_map_snoc, filter_app, filter_cons, filter_nil.
  destruct (decide (project_id item = k)) as [Hk|Hk].
  - rewrite Hk, lookup_insert_eq. by rewrite last_snoc.
  - rewrite lookup_insert_ne by done. by rewrite app_nil_r.
Qed.

Lemma py_filter_returns {A} (f : A -> result bool) (items : list A) :
  (forall item, item ∈ items -> returns (f item)) ->
  py_filter f items = Ok (filter (fun item => f item = Ok true) items).
Proof.
  induction items as [|item items IH]; intros Hret; [done|].
  cbn [py_filter]. destruct (Hret item) as [b Hb]; [apply list_elem_of_here|].
  rewrite Hb, IH by (intros i Hi; by apply Hret, list_elem_of_further).
  cbn [mbind result_bind]. rewrite filter_cons. rewrite Hb.
  destruct b; [by rewrite decide_True | by rewrite decide_False].
Qed.

Lemma py_filter_Ok {A} (f : A -> result bool) (items out : list A) :
  py_filter f items = Ok out -> forall item, item ∈ items -> returns (f item).
Proof.
  revert out. induction items as [|item items IH]; intros out Hout i Hi.
  - by apply elem_of_nil in Hi.
  - cbn [py_filter] in Hout. destruct (f item) as [b|e] eqn:Hb; [|done].
    cbn [mbind result_bind] in Hout.
    destruct (py_filter f items) as [out'|e] eqn:Hrest; [|done].
    apply elem_of_cons in Hi as [-> | Hi]; [by exists b | by apply (IH out')].
Qed.

(** C4: [JamaFilter.__call__] evaluates the main condition against the
    index that maps each item's id to the last input item with that id,
    and returns exactly the items on which it evaluates true, in their
    input order and unchanged.  It returns when the main condition
    returns on every item, and only then. *)
Theorem filter_returns_matching (depth : nat) (self : JamaFilter)
    (items : list Item) (h : store) :
  let item_map := build_item_map items in
  let evaluate :=
    predicate_call depth item_map (h !!! named_conditions self)
      (main_condition self) in
  let matching := filter (fun item => evaluate item = Ok true) items in
  (forall k,
     item_map !! k = last (filter (fun it => project_id it = k) items)) /\
  ((forall item, item ∈ items -> returns (evaluate item)) ->
   JamaFilter_call depth self items h = Ok matching) /\
  (forall out,
     JamaFilter_call depth self items h = Ok out ->
     out = matching /\ out `sublist_of` items /\
     (forall item, item ∈ out <-> item ∈ items /\ evaluate item = Ok true) /\
     (forall item, item ∈ items -> returns (evaluate item))).
Proof.
  intros item_map evaluate matching.
  split; [apply build_item_map_lookup|].
  split; [apply py_filter_returns|].
  intros out Hout.
  assert (Hret : forall item, item ∈ items -> returns (evaluate item))
    by apply (py_filter_Ok _ _ _ Hout).
  assert (out = matching) as ->.
  { change (py_filter evaluate items = Ok out) in Hout.
    rewrite (py_filter_returns _ _ Hret) in Hout. by injection Hout. }
  split; [done|]. split; [apply sublist_filter|].
  split; [|done]. intros item. unfold matching.
  rewrite list_elem_of_filter. tauto.
Qed.

(** C9: when the dictionary given to the constructor has the key
    ['main'], the constructor takes the main condition out of that very
    dictionary and keeps the reference to it as the registry: afterwards
    the caller's dictionary has no ['main'] and is otherwise unchanged, no
    other dictionary changes, and what the caller later writes to the
    dictionary is what the filter's registry holds. *)
Theorem filter_init_pops_main (conditions : ref) (h : store) (main : predicate) :
  (h !!! conditions) !! "main" = Some main ->
  exists (self : JamaFilter) (h' : store),
    JamaFilter_init conditions h = (Ok self, h') /\
    main_condition self = main /\
    named_conditions self = conditions /\
    h' !!! conditions = delete "main" (h !!! conditions) /\
    (h' !!! conditions) !! "main" = None /\
    (forall k, k <> "main" ->
       (h' !!! conditions) !! k = (h !!! conditions) !! k) /\
    (forall r, r <> conditions -> h' !!! r = h !!! r) /\
    (forall k v,
       dict_setitem conditions k v h' !!! named_conditions self
       = <[k := v]> (delete "main" (h !!! conditions))).
Proof.
  intros Hmain. unfold JamaFilter_init, dict_pop. rewrite Hmain.
  eexists _, _. split; [reflexivity|]. cbn [main_condition named_conditions].
  rewrite lookup_total_insert_eq.
  repeat split.
  - apply lookup_delete_eq.
  - intros k Hk. by apply lookup_delete_ne.
  - intros r Hr. by apply lookup_total_insert_ne.
  - intros k v. unfold dict_setitem.
    by rewrite !lookup_total_insert_eq.
Qed.

(** Without the key ['main'] the constructor raises KeyError and changes
    nothing. *)
Lemma filter_init_no_main (conditions : ref) (h : store) :
  (h !!! conditions) !! "main" = None ->
  JamaFilter_init conditions h = (Raise (KeyError "main"), h).
Proof. intros Hmain. unfold JamaFilter_init, dict_pop. by rewrite Hmain. Qed.

(** C10: a field definition with [required] false and no value comparison
    is refused by the constructor with InvalidCondition: for the missing
    value when the field has a name, for the missing name otherwise. *)
Theorem optional_field_needs_value (d : condition_def) (fd : field_def) :
  def_location d = None ->
  def_field d = Some fd ->
  fld_required fd = Some false ->
  (fld_value fd = None \/
   exists comp, fld_value fd = Some comp /\ dict_get_first comp STR_KEYS = None) ->
  Condition_init d =
  Raise (if is_none (fld_name fd)
         then missing_named_attribute FIELD_NAME FIELD
         else missing_named_attribute FIELD_VALUE FIELD).
Proof.
  intros Hloc Hfield Hreq Hvalue. unfold Condition_init.
  rewrite Hloc, Hfield. cbn [init_location mbind result_bind].
  unfold init_field. rewrite Hreq.
  assert (Hcomp : match fld_value fd with
                  | Some v => dict_get_first v STR_KEYS
                  | None => None
                  end = None).
  { destruct Hvalue as [-> | (comp & -> & Hnone)]; done. }
  rewrite Hcomp. by destruct (fld_name fd).
Qed.

(** ** The number of predicate kinds *)

Ltac split_part :=
  match goal with
  | |- context [mbind _ ?m] =>
      lazymatch m with
      | context [mbind] => fail
      | _ => destruct m as [?|?] eqn:?
      end
  end;
  repeat match goal with p : _ * _ |- _ => destruct p end;
  cbn [mbind result_bind].

(** The constructor returns exactly when each of its seven parts returns:
    nothing in it counts the populated kinds. *)
Lemma Condition_init_returns (d : condition_def) :
  returns (Condition_init d) <->
  returns (init_location (def_location d)) /\
  returns (init_field (def_field d)) /\
  returns (init_date CREATED (def_created d)) /\
  returns (init_date MODIFIED (def_modified d)) /\
  returns (init_tags (def_tags d)) /\
  returns (init_relationships UPSTREAM_ITEMS (def_upstream d)) /\
  returns (init_relationships DOWNSTREAM_ITEMS (def_downstream d)).
Proof.
  unfold Condition_init, returns.
  repeat split_part;
    (split; intros Hret;
     [ try (destruct Hret as [? [=]]); repeat split; eexists; reflexivity
     | try (decompose [and ex] Hret; discriminate); eexists; reflexivity ]).
Qed.

Lemma field_init_call fd td c :
  Condition_init (field_and_tags_def fd td) = Ok c ->
  exists c',
    Condition_init (field_only_def fd) = Ok c' /\
    forall call item item_map named,
      Condition_call call c item item_map named =
      Condition_call call c' item item_map named.
Proof.
  unfold Condition_init. cbn -[init_field init_tags].
  destruct (init_field (Some fd)) as [[[[name logic] value] required]|e]
    eqn:Hfield; [|done].
  cbn -[init_tags].
  destruct (init_tags (Some td)) as [[include exclude]|e]; [|done].
  cbn. intros [= <-]. eexists. split; [reflexivity|].
  unfold init_field in Hfield.
  destruct (fld_name fd) as [n|]; [|done]. cbn in Hfield.
  destruct (negb _ && _) in Hfield; [done|]. injection Hfield as <- _ _ _.
  reflexivity.
Qed.

(** C5 does not hold of the code: a definition with the two kinds [field]
    and [tags], and the definition with no kind, are both constructed;
    neither raises InvalidCondition. *)
Lemma kinds_not_checked_by_init :
  (populated_kinds (field_and_tags_def status_passed include_core) = 2 /\
   returns (Condition_init (field_and_tags_def status_passed include_core)) /\
   forall msg,
     Condition_init (field_and_tags_def status_passed include_core)
     <> Raise (InvalidCondition msg)) /\
  (populated_kinds empty_def = 0 /\
   returns (Condition_init empty_def) /\
   forall msg, Condition_init empty_def <> Raise (InvalidCondition msg)).
Proof.
  repeat split; try reflexivity; try (eexists; reflexivity); intros msg [=].
Qed.

(** C5, amended: the constructor does not count the populated kinds; it
    returns exactly when the part of each kind returns.  The definition
    with no kind is constructed, and calling the condition on any item
    raises InvalidCondition.  A definition with both [field] and [tags]
    that is constructed evaluates as the condition of its [field] alone,
    and there are such definitions. *)
Theorem kinds_left_to_the_call :
  (forall d : condition_def,
     returns (Condition_init d) <->
     returns (init_location (def_location d)) /\
     returns (init_field (def_field d)) /\
     returns (init_date CREATED (def_created d)) /\
     returns (init_date MODIFIED (def_modified d)) /\
     returns (init_tags (def_tags d)) /\
     returns (init_relationships UPSTREAM_ITEMS (def_upstream d)) /\
     returns (init_relationships DOWNSTREAM_ITEMS (def_downstream d))) /\
  (exists c,
     Condition_init empty_def = Ok c /\
     forall (call : predicate -> Item -> result bool) (item : Item)
            (item_map : gmap string Item) (named : gmap string predicate),
       Condition_call call c item item_map named =
       Raise (InvalidCondition "No condition logic to evaluate")) /\
  (forall (fd : field_def) (td : tags_def) (c : Condition),
     Condition_init (field_and_tags_def fd td) = Ok c ->
     exists c',
       Condition_init (field_only_def fd) = Ok c' /\
       forall (call : predicate -> Item -> result bool) (item : Item)
              (item_map : gmap string Item) (named : gmap string predicate),
         Condition_call call c item item_map named =
         Condition_call call c' item item_map named) /\
  returns (Condition_init (field_and_tags_def status_passed include_core)).
Proof.
  split; [apply Condition_init_returns|].
  split; [eexists; split; reflexivity|].
  split; [|eexists; reflexivity].
  apply field_init_call.
Qed.

(** ** Condition groups *)

(** An item whose type is not in the type filter is rejected before any
    member is looked at. *)
Lemma group_type_rejects call g types item named :
  group_type g = Some types -> object_type item ∉ types ->
  ConditionGroup_call call g item named = Ok false.
Proof.
  intros Htype Hnot. unfold ConditionGroup_call. rewrite Htype.
  by rewrite bool_decide_eq_false_2.
Qed.

(** A group without a member list matches every item that passes the
    type filter. *)
Lemma group_without_member_list call g item named :
  group_conditions g = None ->
  (forall types, group_type g = Some types -> object_type item ∈ types) ->
  ConditionGroup_call call g item named = Ok true.
Proof.
  intros Hnone Htype. unfold ConditionGroup_call. rewrite Hnone.
  destruct (group_type g) as [types|]; [|done].
  by rewrite bool_decide_eq_true_2 by by apply Htype.
Qed.

(** The group [{'type': ['Requirement']}] matches exactly the items of
    type Requirement. *)
Lemma requirement_only_matches :
  exists g,
    ConditionGroup_init requirement_only = Ok g /\
    forall call item named,
      ConditionGroup_call call g item named
      = Ok (bool_decide (object_type item = "Requirement")).
Proof.
  exists (MkConditionGroup (Some ["Requirement"]) None None).
  split; [reflexivity|]. intros call item named.
  unfold ConditionGroup_call. cbn [group_type group_conditions].
  destruct (decide (object_type item = "Requirement")) as [Heq|Hne].
  - rewrite Heq. reflexivity.
  - rewrite (bool_decide_eq_false_2 (object_type item ∈ _))
      by (by rewrite list_elem_of_singleton).
    by rewrite bool_decide_eq_false_2.
Qed.

(** C6: the group [{'type': ['Requirement'], 'according to any': []}] is
    constructed, has no members, and matches no item, whatever its type:
    the [any] of no member is false. *)
Theorem any_of_no_member_matches_nothing :
  exists g,
    ConditionGroup_init requirement_any_nothing = Ok g /\
    group_conditions g = Some [] /\
    forall (call : predicate -> Item -> result bool) (item : Item)
           (named : gmap string predicate),
      ConditionGroup_call call g item named = Ok false.
Proof.
  exists (MkConditionGroup (Some ["Requirement"]) (Some GROUP_ANY) (Some [])).
  split; [reflexivity|]. split; [reflexivity|].
  intros call item named. unfold ConditionGroup_call.
  cbn [group_type group_conditions group_logic].
  by destruct (negb _).
Qed.

(** A definition with neither a type nor a member in its member list is
    refused with InvalidCondition when it has a member list. *)
Lemma group_init_no_member (d : group_def) logic :
  grp_type d = None ->
  dict_get_first d [GROUP_ALL; GROUP_ANY] = Some (logic, []) ->
  ConditionGroup_init d =
  Raise (InvalidCondition
           "Condition group must specify a type and/or group of conditions").
Proof.
  intros Htype Hfirst. unfold ConditionGroup_init. by rewrite Htype, Hfirst.
Qed.

(** C8: on the definition [{}], with neither a type nor a member list,
    the constructor raises TypeError, not InvalidCondition: the length of
    the missing member list is taken. *)
Theorem group_init_without_member_list :
  ConditionGroup_init empty_group_def = Raise TypeError.
Proof. reflexivity. Qed.

(** * The properties on the small trace *)

Example passed_condition_init :
  Condition_init (field_only_def status_passed) = Ok passed_condition.
Proof. reflexivity. Qed.

Example is_under_examples :
  let item (l : list string) (t : string) :=
    {| downstream := []; fields := ∅; location := l; object_created := 0;
       object_modified := 0; object_type := "Requirement"; project_id := "R";
       report_path := ""; tags := []; title := t; upstream := [] |} in
  exists under not_under,
    Condition_init (is_under_def ["A"; "B"]) = Ok under /\
    Condition_init (is_not_under_def ["A"; "B"]) = Ok not_under /\
    Condition_call (fun _ _ => Raise RuntimeError) under
      (item ["A"; "B"] "C") ∅ ∅ = Ok true /\
    Condition_call (fun _ _ => Raise RuntimeError) under
      (item ["A"; "X"] "C") ∅ ∅ = Ok false /\
    Condition_call (fun _ _ => Raise RuntimeError) under
      (item [] "A") ∅ ∅ = Ok false /\
    Condition_call (fun _ _ => Raise RuntimeError) not_under
      (item ["A"; "B"] "C") ∅ ∅ = Ok false /\
    Condition_call (fun _ _ => Raise RuntimeError) not_under
      (item [] "A") ∅ ∅ = Ok true.
Proof. eexists _, _. repeat split; reflexivity. Qed.

Lemma unknown_neighbor_vetoes_witness :
  registry !! "passed" = Some (PCondition passed_condition) /\
  build_item_map trace !! "TEST-9" = None /\
  exists c,
    Condition_init (relationships_def Downstream all_passed) = Ok c /\
    predicate_call 2 (build_item_map trace) registry (PCondition c) req1
    = Ok false.
Proof.
  split; [reflexivity|]. split; [vm_compute; reflexivity|].
  eexists. split; [reflexivity|].
  apply (unknown_neighbor_vetoes Downstream all_passed RELS_ALL_MATCH "passed"
           _ (PCondition passed_condition) req1 (build_item_map trace)
           registry (verified_by "TEST-9")).
  - reflexivity.
  - left. reflexivity.
  - reflexivity.
  - reflexivity.
  - reflexivity.
  - cbn. in_list.
  - exact I.
  - vm_compute. reflexivity.
Defined.

Lemma is_three_schema : NUMCOMP_SCHEMA {[ NUM_IS := NInt 3 ]}.
Proof.
  left. intros k v Hkv. apply lookup_singleton_Some in Hkv as [<- <-].
  split; [in_list|]. intros k' [w Hw].
  by apply lookup_singleton_Some in Hw as [<- _].
Qed.

Lemma count_match_adds_unknowns_witness :
  known_neighbors None (build_item_map trace) (downstream req1) = [test1; test2] /\
  unknown_ids None (build_item_map trace) (downstream req1) = ["TEST-9"] /\
  (exists c,
     Condition_init
       (relationships_def Downstream (count_is_three "passed" (Some false)))
     = Ok c /\
     predicate_call 2 (build_item_map trace) registry (PCondition c) req1
     = Ok true) /\
  (exists c b,
     Condition_init
       (relationships_def Downstream (count_is_three "passed" None)) = Ok c /\
     predicate_call 2 (build_item_map trace) registry (PCondition c) req1
     = Ok b /\
     (b = true <->
      forall k v, ({[ NUM_IS := NInt 3 ]} : gmap string num_value) !! k = Some v ->
        num_satisfies
          (matched (fun _ => true) (count_is_three "passed" None)
             (build_item_map trace) (downstream req1)) k v)).
Proof.
  split; [vm_compute; reflexivity|]. split; [vm_compute; reflexivity|]. split.
  - apply (proj2 count_match_adds_unknowns Downstream "passed" (Some false)
             (PCondition passed_condition) req1 (build_item_map trace)
             registry (predicate_call 1 (build_item_map trace) registry)
             test1 test2 "TEST-9");
      vm_compute; reflexivity.
  - pose (c := relationships_condition Downstream
                 (None, Some [(NUM_IS, NInt 3%Z)], Some RELS_COUNT_MATCH,
                  Some "passed", Some false)).
    exists c.
    destruct (proj1 count_match_adds_unknowns Downstream
                (count_is_three "passed" None) "passed"
                {[ NUM_IS := NInt 3 ]} c (PCondition passed_condition)
                (fun _ => true) req1 (build_item_map trace) registry
                (predicate_call 1 (build_item_map trace) registry))
      as (b & Hb & Hspec).
    + reflexivity.
    + reflexivity.
    + apply is_three_schema.
    + reflexivity.
    + reflexivity.
    + intros u Hu.
      change (u ∈ known_neighbors None (build_item_map trace) (downstream req1))
        in Hu.
      assert (Hk : known_neighbors None (build_item_map trace) (downstream req1)
                   = [test1; test2]) by (vm_compute; reflexivity).
      rewrite Hk in Hu. list_cases Hu; subst u; reflexivity.
    + exists b. split; [reflexivity|]. split; [exact Hb | exact Hspec].
Defined.

Lemma pure_counting_witness :
  NUMCOMP_SCHEMA range_count /\
  length (known_neighbors None (build_item_map trace) (downstream req1)) = 2 /\
  Condition_call (predicate_call 1 (build_item_map trace) registry)
    range_condition req1 (build_item_map trace) registry = Ok true /\
  exists b,
    Condition_call (predicate_call 1 (build_item_map trace) registry)
      range_condition req1 (build_item_map trace) registry = Ok b /\
    (b = true <->
     forall k v, range_count !! k = Some v ->
       num_satisfies (counted range_rels (build_item_map trace) (downstream req1))
         k v).
Proof.
  split; [apply range_count_schema|].
  split; [vm_compute; reflexivity|]. split.
  - destruct (proj2 pure_counting) as (c & Hc & Hcall).
    injection Hc as <-.
    apply (Hcall (predicate_call 1 (build_item_map trace) registry) req1
             (build_item_map trace) registry).
    left. vm_compute. reflexivity.
  - apply (proj1 pure_counting Downstream range_rels range_count
             range_condition req1 (build_item_map trace) registry
             (predicate_call 1 (build_item_map trace) registry)).
    + reflexivity.
    + reflexivity.
    + apply range_count_schema.
    + reflexivity.
Defined.

Lemma filter_returns_matching_witness :
  JamaFilter_call 2 range_filter trace filter_store = Ok [req1] /\
  build_item_map trace !! "TEST-1" = Some test1.
Proof.
  pose proof (filter_returns_matching 2 range_filter trace filter_store)
    as (Hmap & Hret & _).
  split.
  - rewrite Hret.
    + vm_compute. reflexivity.
    + intros item Hitem. unfold trace in Hitem.
      list_cases Hitem; subst item; eexists; vm_compute; reflexivity.
  - rewrite Hmap. vm_compute. reflexivity.
Defined.

Lemma kinds_left_to_the_call_witness :
  exists c c',
    Condition_init (field_and_tags_def status_passed include_core) = Ok c /\
    Condition_init (field_only_def status_passed) = Ok c' /\
    forall call item item_map named,
      Condition_call call c item item_map named =
      Condition_call call c' item item_map named.
Proof.
  destruct (Condition_init (field_and_tags_def status_passed include_core))
    as [c|e] eqn:Hinit; [|discriminate Hinit].
  destruct (proj1 (proj2 (proj2 kinds_left_to_the_call))
              status_passed include_core c Hinit) as (c' & Hc' & Hcall).
  exists c, c'. split; [reflexivity|]. split; [exact Hc' | exact Hcall].
Defined.

Lemma filter_init_pops_main_witness :
  (filter_store !!! 7) !! "main" = Some (PCondition range_condition) /\
  exists self h',
    JamaFilter_init 7 filter_store = (Ok self, h') /\
    named_conditions self = 7 /\
    (h' !!! 7) !! "main" = None /\
    (h' !!! 7) !! "passed" = Some (PCondition passed_condition).
Proof.
  split; [reflexivity|].
  destruct (filter_init_pops_main 7 filter_store (PCondition range_condition))
    as (self & h' & Hinit & _ & Hname & _ & Hmain & Hrest & _).
  - reflexivity.
  - exists self, h'. repeat split; try assumption.
    rewrite Hrest by discriminate. reflexivity.
Defined.

Lemma optional_field_needs_value_witness :
  Condition_init (field_only_def optional_status) =
  Raise (missing_named_attribute FIELD_VALUE FIELD).
Proof.
  apply (optional_field_needs_value (field_only_def optional_status)
           optional_status).
  - reflexivity.
  - reflexivity.
  - reflexivity.
  - left. reflexivity.
Defined.

(** What the caller writes to its dictionary after the filter is built is
    seen by the filter: naming [passed] a condition that nothing
    satisfies changes the result of a filter whose main condition counts
    the downstream items that match [passed]. *)
Example registry_is_shared :
  let main :=
    PCondition
      (relationships_condition Downstream
         (None, Some [(NUM_IS, NInt 3%Z)], Some RELS_COUNT_MATCH,
          Some "passed", Some false)) in
  let h : gmap nat (gmap string predicate) :=
    {[ 7 := <[ "main" := main ]> registry ]} in
  exists self h',
    JamaFilter_init 7 h = (Ok self, h') /\
    JamaFilter_call 3 self trace h' = Ok [req1] /\
    JamaFilter_call 3 self trace
      (dict_setitem 7 "passed" (PCondition range_condition) h') = Ok [].
Proof.
  eexists _, _. split; [reflexivity|].
  split; vm_compute; reflexivity.
Qed.

(** * Further properties of the engine *)

(** ** Field conditions *)

(** X1: a field condition built from a definition with a name evaluates
    on the item's value of that field.  When the item has no such field
    the result is the negation of [required] (true by default); when it
    has one and no comparison is configured the result is true; otherwise
    it is the configured string comparison on the value. *)
Theorem field_condition_call (fd : field_def) (name : string) (c : Condition)
    (call : predicate -> Item -> result bool) (item : Item)
    (item_map : gmap string Item) (named : gmap string predicate) :
  fld_name fd = Some name ->
  Condition_init (field_only_def fd) = Ok c ->
  Condition_call call c item item_map named =
  match fields item !! name with
  | None => Ok (negb (default true (fld_required fd)))
  | Some value =>
      match field_comparison fd with
      | None => Ok true
      | Some (logic, comp_value) =>
          _strcomp value (Some comp_value) (Some logic)
      end
  end.
Proof.
  intros Hname. unfold Condition_init. cbn -[init_field].
  unfold init_field. fold (field_comparison fd). rewrite Hname.
  cbn [is_none]. destruct (negb _ && _); [done|].
  cbn. intros [= <-]. unfold Condition_call. cbn.
  destruct (fields item !! name) as [value|]; [|done].
  by destruct (field_comparison fd) as [[logic comp_value]|].
Qed.

Lemma field_condition_call_witness :
  exists c,
    Condition_init (field_only_def open_if_present) = Ok c /\
    forall call item item_map named,
      Condition_call call c item item_map named =
      match fields item !! "Status" with
      | None => Ok true
      | Some value => Ok (bool_decide (value = "Open"))
      end.
Proof.
  eexists. split; [reflexivity|]. intros call item item_map named.
  rewrite (field_condition_call open_if_present "Status" _ call item item_map
             named eq_refl eq_refl).
  reflexivity.
Defined.

(** ** Date ranges *)


Ltac no_location :=
  unfold Condition_call; cbn [location_logic field_name];
  rewrite !(bool_decide_eq_false_2 (None = Some _)) by done.


(** ** Tags *)

(** X3: a [tags] definition with neither [include] nor [exclude] is
    refused with InvalidCondition.  With [include] the condition matches
    exactly the items that carry the tag, and an [exclude] given beside
    it is not looked at; with [exclude] alone it matches exactly the
    items that do not carry the tag. *)
Theorem tags_condition_call (td : tags_def) :
  match tag_include td, tag_exclude td with
  | None, None =>
      Condition_init (tags_only_def td) = Raise (missing_attribute TAGS)
  | Some tag, _ =>
      exists c,
        Condition_init (tags_only_def td) = Ok c /\
        forall (call : predicate -> Item -> result bool) (item : Item)
               (item_map : gmap string Item) (named : gmap string predicate),
          Condition_call call c item item_map named
          = Ok (bool_decide (tag ∈ tags item))
  | None, Some tag =>
      exists c,
        Condition_init (tags_only_def td) = Ok c /\
        forall (call : predicate -> Item -> result bool) (item : Item)
               (item_map : gmap string Item) (named : gmap string predicate),
          Condition_call call c item item_map named
          = Ok (negb (bool_decide (tag ∈ tags item)))
  end.
Proof.
  destruct td as [[t|] [t'|]]; cbn [tag_include tag_exclude];
    try reflexivity;
    (eexists; split; [reflexivity|]; intros call item item_map named;
     no_location; reflexivity).
Qed.

(** ** Every node and no node *)

Lemma item_path_cons (item : Item) :
  exists node rest, item_path item = node :: rest.
Proof.
  unfold item_path. destruct (location item) as [|x l]; cbn; eauto.
Qed.

Lemma every_node_init comp :
  Condition_init (every_node_def comp) =
  match dict_get_first comp STR_KEYS with
  | Some (logic, value) => Ok (node_condition LOCATION_EVERY_NODE logic value)
  | None => Raise (missing_attribute LOCATION_EVERY_NODE)
  end.
Proof.
  unfold Condition_init, every_node_def, def_location, init_location.
  change (dict_get_first _ [LOCATION_IS_UNDER; _; _; _])
    with (Some (LOCATION_EVERY_NODE, LocComp comp)).
  cbn match. change (bool_decide _) with false. cbn match.
  by destruct (dict_get_first comp STR_KEYS) as [[logic value]|].
Qed.

Lemma no_node_init comp :
  Condition_init (no_node_def comp) =
  match dict_get_first comp STR_KEYS with
  | Some (logic, value) => Ok (node_condition LOCATION_NO_NODE logic value)
  | None => Raise (missing_attribute LOCATION_NO_NODE)
  end.
Proof.
  unfold Condition_init, no_node_def, def_location, init_location.
  change (dict_get_first _ [LOCATION_IS_UNDER; _; _; _])
    with (Some (LOCATION_NO_NODE, LocComp comp)).
  cbn match. change (bool_decide _) with false. cbn match.
  by destruct (dict_get_first comp STR_KEYS) as [[logic value]|].
Qed.

(** X4: the conditions built from [every node] and [no node] with the
    same string comparison apply it to each node of the item's full path
    [location + [title]], in order: the first holds when the comparison
    holds of every node, the second when it holds of none.  The full path
    always has the title, so no item matches both.  A comparison
    dictionary without a comparison is refused with InvalidCondition. *)
Theorem node_conditions_call (comp : gmap string str_value) :
  match dict_get_first comp STR_KEYS with
  | None =>
      Condition_init (every_node_def comp) =
      Raise (missing_attribute LOCATION_EVERY_NODE) /\
      Condition_init (no_node_def comp) =
      Raise (missing_attribute LOCATION_NO_NODE)
  | Some (logic, comp_value) =>
      exists every none,
        Condition_init (every_node_def comp) = Ok every /\
        Condition_init (no_node_def comp) = Ok none /\
        forall (call : predicate -> Item -> result bool) (item : Item)
               (item_map : gmap string Item) (named : gmap string predicate),
          Condition_call call every item item_map named =
          py_all (fun node => _strcomp node (Some comp_value) (Some logic))
            (item_path item) /\
          Condition_call call none item item_map named =
          py_all (fun node =>
                    negb <$> _strcomp node (Some comp_value) (Some logic))
            (item_path item) /\
          (Condition_call call every item item_map named = Ok true ->
           Condition_call call none item item_map named = Ok false) /\
          (forall sat : string -> bool,
             (forall node, node ∈ item_path item ->
                _strcomp node (Some comp_value) (Some logic) = Ok (sat node)) ->
             Condition_call call every item item_map named
             = Ok (forallb sat (item_path item)) /\
             Condition_call call none item item_map named
             = Ok (forallb (fun node => negb (sat node)) (item_path item)))
  end.
Proof.
  pose proof (every_node_init comp) as Hinit_every.
  pose proof (no_node_init comp) as Hinit_none.
  destruct (dict_get_first comp STR_KEYS) as [[logic comp_value]|] eqn:Hfirst.
  - exists (node_condition LOCATION_EVERY_NODE logic comp_value),
           (node_condition LOCATION_NO_NODE logic comp_value).
    split; [done|]. split; [done|].
    intros call item item_map named.
    assert (Hevery : forall c,
               location_logic c = Some LOCATION_EVERY_NODE ->
               Condition_call call c item item_map named =
               py_all (fun node => _strcomp node (location_node_value c)
                                     (location_node_logic c))
                 (item_path item)).
    { intros c Hc. unfold Condition_call. rewrite Hc. reflexivity. }
    assert (Hnone : forall c,
               location_logic c = Some LOCATION_NO_NODE ->
               Condition_call call c item item_map named =
               py_all (fun node => negb <$> _strcomp node (location_node_value c)
                                              (location_node_logic c))
                 (item_path item)).
    { intros c Hc. unfold Condition_call. rewrite Hc. reflexivity. }
    rewrite Hevery, Hnone by reflexivity.
    cbn [location_node_value location_node_logic node_condition].
    split; [reflexivity|]. split; [reflexivity|]. split.
    + destruct (item_path_cons item) as (node & rest & ->). cbn [py_all].
      destruct (_strcomp node _ _) as [[|]|e]; cbn; try done.
    + intros sat Hsat. split.
      * rewrite <- py_all_pure. by apply py_all_ext.
      * rewrite <- (py_all_pure (fun node => negb (sat node))).
        apply py_all_ext. intros node Hnode.
        by rewrite (Hsat node Hnode).
  - by split.
Qed.

(** ** All match and none match *)

(** X5: for a relationship condition with [all match] or [none match],
    when no related id is unresolved or 'count unknowns' is enabled, and
    the nested condition returns on the known neighbors, evaluation
    returns whether the nested condition holds of every known neighbor
    (all match) or of none (none match); with no known neighbor both are
    true. *)
Theorem quantified_match_call (dir : direction) (d : rels_def)
    (logic name : string) (c : Condition) (nested : predicate)
    (sat : Item -> bool) (item : Item) (item_map : gmap string Item)
    (named : gmap string predicate) (call : predicate -> Item -> result bool) :
  rels_logic d = Some (logic, name) ->
  logic = RELS_ALL_MATCH \/ logic = RELS_NONE_MATCH ->
  Condition_init (relationships_def dir d) = Ok c ->
  named !! name = Some nested ->
  counts_unknowns d = true \/
  unknown_ids (rels_with_type d) item_map (related dir item) = [] ->
  (forall u,
     u ∈ known_neighbors (rels_with_type d) item_map (related dir item) ->
     call nested u = Ok (sat u)) ->
  Condition_call call c item item_map named =
  Ok (forallb (fun u => quantified logic (sat u))
        (known_neighbors (rels_with_type d) item_map (related dir item))).
Proof.
  intros Hl Hlogic Hinit Hnamed Hunknown Hsat.
  destruct (relationships_init_call call dir d c item item_map named Hinit)
    as (count & _ & _ & _ & ->).
  rewrite Hl. cbn [fmap option_fmap option_map fst snd nested_condition].
  rewrite Hnamed. cbn [mbind result_bind].
  unfold _evaluate_relationships. rewrite collect_related_spec.
  cbn [is_none default id].
  assert (Hveto : negb (counts_unknowns d) &&
                  (Z.of_nat (length (unknown_ids (rels_with_type d) item_map
                                       (related dir item))) >? 0)%Z = false).
  { destruct Hunknown as [-> | ->]; [done|]. by rewrite andb_false_r. }
  rewrite Hveto. cbn [andb].
  rewrite bool_decide_eq_false_2 by (destruct Hlogic as [-> | ->]; done).
  unfold _relcomp, quantified. rewrite <- py_all_pure.
  destruct Hlogic as [-> | ->].
  - rewrite bool_decide_eq_true_2 by done.
    apply py_all_ext. intros u Hu. cbn [call_nested].
    rewrite bool_decide_eq_true_2 by done. by apply Hsat.
  - rewrite bool_decide_eq_false_2 by done.
    rewrite bool_decide_eq_true_2 by done.
    apply py_all_ext. intros u Hu. cbn [call_nested].
    rewrite bool_decide_eq_false_2 by done. by rewrite Hsat.
Qed.

Lemma quantified_match_call_witness :
  Condition_call (predicate_call 1 (build_item_map trace) registry)
    (relationships_condition Upstream
       (None, None, Some RELS_NONE_MATCH, Some "passed", Some false))
    test1 (build_item_map trace) registry = Ok true.
Proof.
  apply (quantified_match_call Upstream
           {| rels_with_type := None; rels_count := None;
              rels_all_match := None; rels_count_match := None;
              rels_none_match := Some "passed"; rels_count_unknowns := None |}
           RELS_NONE_MATCH "passed" _ (PCondition passed_condition)
           (fun _ => false)).
  - reflexivity.
  - right. reflexivity.
  - reflexivity.
  - reflexivity.
  - right. vm_compute. reflexivity.
  - intros u Hu.
    assert (Hk : known_neighbors None (build_item_map trace) (upstream test1)
                 = [req1]) by (vm_compute; reflexivity).
    cbn [rels_with_type related] in Hu. rewrite Hk in Hu.
    list_cases Hu; subst u; reflexivity.
Defined.

(** ** A nested condition that is not in the registry *)

(** X6: a relationship condition whose nested condition name is not in
    the registry raises InvalidCondition on every item, before any
    relationship is looked at: also on an item without relationships and
    on one whose unresolved neighbors would decide the result. *)
Theorem missing_nested_condition (dir : direction) (d : rels_def)
    (logic name : string) (c : Condition) (item : Item)
    (item_map : gmap string Item) (named : gmap string predicate)
    (call : predicate -> Item -> result bool) :
  rels_logic d = Some (logic, name) ->
  Condition_init (relationships_def dir d) = Ok c ->
  named !! name = None ->
  Condition_call call c item item_map named = Raise (missing_condition name).
Proof.
  intros Hl Hinit Hnamed.
  destruct (relationships_init_call call dir d c item item_map named Hinit)
    as (count & _ & _ & _ & ->).
  rewrite Hl. cbn [fmap option_fmap option_map fst snd nested_condition].
  by rewrite Hnamed.
Qed.

Lemma missing_nested_condition_witness :
  exists c,
    Condition_init (relationships_def Downstream all_passed) = Ok c /\
    predicate_call 2 (build_item_map trace) ∅ (PCondition c) test1
    = Raise (missing_condition "passed").
Proof.
  eexists. split; [reflexivity|].
  apply (missing_nested_condition Downstream all_passed RELS_ALL_MATCH
           "passed"); reflexivity.
Defined.

(** ** Which relationship definitions are accepted *)

Lemma init_count_returns cnd (count : gmap string num_value) :
  returns (init_count cnd count) <->
  exists k, k ∈ NUM_KEYS /\ is_Some (count !! k).
Proof.
  unfold init_count.
  destruct (dict_get_first count [NUM_IS; NUM_IS_NOT; NUM_IN; NUM_NOT_IN])
    as [[logic value]|] eqn:Hfirst.
  - apply dict_get_first_Some in Hfirst as [Hin Hv]. split.
    + intros _. exists logic. split; [|by eexists].
      unfold NUM_KEYS. list_cases Hin; subst logic; in_list.
    + intros _. by eexists.
  - pose proof (dict_get_first_None _ _ Hfirst) as Hnone.
    cbn [omap list_omap].
    destruct (count !! NUM_GREATER_THAN) as [v1|] eqn:H1;
      destruct (count !! NUM_GREATER_THAN_EQ) as [v2|] eqn:H2;
      destruct (count !! NUM_LESS_THAN) as [v3|] eqn:H3;
      destruct (count !! NUM_LESS_THAN_EQ) as [v4|] eqn:H4;
      cbn [fmap option_fmap option_map length].
    16:{ split; [intros [? [=]]|]. intros (k & Hk & [v Hv]).
         unfold NUM_KEYS in Hk. list_cases Hk; subst k; try congruence;
           rewrite Hnone in Hv by in_list; done. }
    all: split; [intros _ | intros _; by eexists].
    all: first [ exists NUM_GREATER_THAN; split; [unfold NUM_KEYS; in_list | by eexists]
               | exists NUM_GREATER_THAN_EQ; split; [unfold NUM_KEYS; in_list | by eexists]
               | exists NUM_LESS_THAN; split; [unfold NUM_KEYS; in_list | by eexists]
               | exists NUM_LESS_THAN_EQ; split; [unfold NUM_KEYS; in_list | by eexists] ].
Qed.

Lemma returns_fmap {A B} (f : A -> B) (r : result A) :
  returns (f <$> r) <-> returns r.
Proof. destruct r; split; intros [x Hx]; try done; by eexists. Qed.

(** X7: the constructor accepts a relationship definition exactly when
    its count, if given, has at least one numeric comparison, and either
    it has a count and no logic or [count match], or it has no count and
    [all match] or [none match].  So a definition with neither is
    refused, [count match] without a count is refused, and a count beside
    [all match] or [none match] is refused. *)
Theorem relationship_definition_accepted (dir : direction) (d : rels_def) :
  returns (Condition_init (relationships_def dir d)) <->
  (forall count, rels_count d = Some count ->
     exists k, k ∈ NUM_KEYS /\ is_Some (count !! k)) /\
  match rels_count d, rels_logic d with
  | None, None => False
  | None, Some (logic, _) => logic <> RELS_COUNT_MATCH
  | Some _, None => True
  | Some _, Some (logic, _) => logic = RELS_COUNT_MATCH
  end.
Proof.
  rewrite Condition_init_relationships, returns_fmap.
  unfold init_relationships. fold (rels_logic d).
  destruct (rels_count d) as [count|].
  - pose proof (init_count_returns (direction_name dir) count) as Hcount.
    destruct (init_count (direction_name dir) count) as [comps|e].
    + cbn [fmap result_fmap mbind result_bind is_none andb].
      assert (Hk : exists k, k ∈ NUM_KEYS /\ is_Some (count !! k))
        by (apply Hcount; by eexists).
      destruct (rels_logic d) as [[logic name]|];
        cbn [fmap option_fmap option_map fst snd].
      * case_bool_decide as Hin; cbn [negb].
        -- split; [|intros _; by eexists]. intros _. split.
           ++ by intros ? [= <-].
           ++ list_cases Hin; congruence.
        -- split; [intros [? [=]]|]. intros [_ ->]. exfalso. apply Hin. in_list.
      * split; [|intros _; by eexists]. intros _. split; [|done].
        by intros ? [= <-].
    + cbn [fmap result_fmap mbind result_bind].
      split; [intros [? [=]]|]. intros [Hk _].
      destruct Hcount as [_ Hcount]. destruct (Hcount (Hk _ eq_refl)) as [? [=]].
  - cbn [mbind result_bind is_none andb].
    destruct (rels_logic d) as [[logic name]|];
      cbn [fmap option_fmap option_map fst snd is_none].
    + case_bool_decide as Hcm.
      * split; [intros [? [=]]|]. intros [_ Hne]. congruence.
      * split; [|intros _; by eexists]. intros _. split; [done|]. congruence.
    + split; [intros [? [=]] | intros [_ []]].
Qed.

(** ** Members of a condition group *)

Lemma py_any_pure {A} (f : A -> bool) (l : list A) :
  py_any (fun x => Ok (f x)) l = Ok (existsb f l).
Proof.
  induction l as [|x l IH]; simpl; [done|].
  destruct (f x); simpl; [done | apply IH].
Qed.

Lemma py_any_ext {A} (f g : A -> result bool) (l : list A) :
  (forall x, x ∈ l -> f x = g x) -> py_any f l = py_any g l.
Proof.
  induction l as [|x l IH]; intros Hfg; simpl; [done|].
  rewrite (Hfg x) by apply list_elem_of_here.
  rewrite IH; [done|]. intros y Hy. apply Hfg. by apply list_elem_of_further.
Qed.

Lemma type_passes_call call g item named :
  type_passes (group_type g) item ->
  ConditionGroup_call call g item named =
  match group_conditions g with
  | None => Ok true
  | Some members =>
      conditions ← resolve_members named members;
      if bool_decide (group_logic g = Some GROUP_ALL) then
        py_all (fun condition => call condition item) conditions
      else if bool_decide (group_logic g = Some GROUP_ANY) then
        py_any (fun condition => call condition item) conditions
      else Ok true
  end.
Proof.
  intros Hpass. unfold ConditionGroup_call.
  destruct (group_type g) as [types|]; [|done].
  cbn in Hpass. by rewrite bool_decide_eq_true_2.
Qed.

(** X8: for a group whose members all resolve and on which every member
    returns, an item that passes the type filter matches exactly when
    every member holds ([according to all]) or some member holds
    ([according to any]); an empty [all] holds and an empty [any] does
    not. *)
Theorem group_combines_members (call : predicate -> Item -> result bool)
    (g : ConditionGroup) (members : list member) (ps : list predicate)
    (sat : predicate -> bool) (item : Item) (named : gmap string predicate) :
  type_passes (group_type g) item ->
  group_conditions g = Some members ->
  resolve_members named members = Ok ps ->
  (forall p, p ∈ ps -> call p item = Ok (sat p)) ->
  ConditionGroup_call call g item named
  = Ok (combined (group_logic g) (sat <$> ps)).
Proof.
  intros Hpass Hmembers Hresolve Hsat.
  rewrite type_passes_call by done. rewrite Hmembers, Hresolve.
  cbn [mbind result_bind]. unfold combined.
  repeat case_bool_decide; [| |done].
  - rewrite (py_all_ext _ (fun p => Ok (sat p))) by done.
    rewrite py_all_pure. f_equal. clear. induction ps; cbn; [done|].
    by rewrite IHps.
  - rewrite (py_any_ext _ (fun p => Ok (sat p))) by done.
    rewrite py_any_pure. f_equal. clear. induction ps; cbn; [done|].
    by rewrite IHps.
Qed.

Lemma group_combines_members_witness :
  ConditionGroup_call (predicate_call 1 (build_item_map trace) registry)
    (MkConditionGroup (Some ["Test"]) (Some GROUP_ANY)
       (Some [MName "passed"; MObject (PCondition range_condition)]))
    test1 registry = Ok true.
Proof.
  rewrite (group_combines_members _ _
             [MName "passed"; MObject (PCondition range_condition)]
             [PCondition passed_condition; PCondition range_condition]
             (fun p => match p with
                       | PCondition c => is_none (downstream_count c)
                       | PGroup _ => false
                       end)).
  - reflexivity.
  - cbn. in_list.
  - reflexivity.
  - reflexivity.
  - intros p Hp. list_cases Hp; subst p; vm_compute; reflexivity.
Defined.

Lemma resolve_members_missing named members name :
  MName name ∈ members -> named !! name = None ->
  exists name',
    MName name' ∈ members /\ named !! name' = None /\
    resolve_members named members = Raise (missing_condition name').
Proof.
  induction members as [|m members IH]; intros Hin Hnone.
  - by apply elem_of_nil in Hin.
  - destruct m as [n|p]; cbn [resolve_members].
    + destruct (named !! n) as [q|] eqn:Hn.
      * apply elem_of_cons in Hin as [[= ->]|Hin]; [congruence|].
        destruct (IH Hin Hnone) as (name' & Hin' & Hnone' & ->).
        exists name'. split; [by apply list_elem_of_further | done].
      * exists n. split; [apply list_elem_of_here | done].
    + apply elem_of_cons in Hin as [[=]|Hin].
      destruct (IH Hin Hnone) as (name' & Hin' & Hnone' & ->).
      exists name'. split; [by apply list_elem_of_further | done].
Qed.

(** X9: when a member of a group is a name that is not in the registry,
    calling the group on an item that passes the type filter raises
    InvalidCondition for a missing name, and no member is evaluated:
    the result does not depend on what the members do, not even on a
    member before the name that would decide an [all] or an [any]. *)
Theorem group_missing_member (call : predicate -> Item -> result bool)
    (g : ConditionGroup) (members : list member) (name : string)
    (item : Item) (named : gmap string predicate) :
  type_passes (group_type g) item ->
  group_conditions g = Some members ->
  MName name ∈ members ->
  named !! name = None ->
  exists name',
    MName name' ∈ members /\ named !! name' = None /\
    ConditionGroup_call call g item named = Raise (missing_condition name').
Proof.
  intros Hpass Hmembers Hin Hnone.
  destruct (resolve_members_missing named members name Hin Hnone)
    as (name' & Hin' & Hnone' & Hresolve).
  exists name'. split; [done|]. split; [done|].
  rewrite type_passes_call by done. by rewrite Hmembers, Hresolve.
Qed.

Lemma group_missing_member_witness :
  exists name',
    registry !! name' = None /\
    ConditionGroup_call (fun _ _ => Ok false)
      (MkConditionGroup None (Some GROUP_ALL)
         (Some [MObject (PCondition passed_condition); MName "failed"]))
      req1 registry = Raise (missing_condition name').
Proof.
  destruct (group_missing_member (fun _ _ => Ok false)
              (MkConditionGroup None (Some GROUP_ALL)
                 (Some [MObject (PCondition passed_condition); MName "failed"]))
              [MObject (PCondition passed_condition); MName "failed"]
              "failed" req1 registry) as (name' & _ & Hnone & Hcall).
  - exact I.
  - reflexivity.
  - in_list.
  - reflexivity.
  - exists name'. split; [exact Hnone | exact Hcall].
Defined.

(** ** Named conditions that refer to themselves *)

(** X10: nothing detects a cycle of named conditions.  A group whose
    only member is its own name raises RuntimeError, whatever call depth
    is allowed, on every item that passes its type filter. *)
Theorem self_reference_exhausts_depth (name logic : string)
    (type : option (list string)) (named : gmap string predicate)
    (item_map : gmap string Item) (item : Item) (depth : nat) :
  named !! name
  = Some (PGroup (MkConditionGroup type (Some logic) (Some [MName name]))) ->
  logic = GROUP_ALL \/ logic = GROUP_ANY ->
  type_passes type item ->
  predicate_call depth item_map named
    (PGroup (MkConditionGroup type (Some logic) (Some [MName name]))) item
  = Raise RuntimeError.
Proof.
  intros Hnamed Hlogic Hpass. induction depth as [|depth IH]; [done|].
  cbn [predicate_call]. rewrite type_passes_call by done.
  cbn [group_conditions group_logic resolve_members]. rewrite Hnamed.
  cbn [mbind result_bind].
  destruct Hlogic as [-> | ->].
  - rewrite bool_decide_eq_true_2 by done. cbn [py_all]. by rewrite IH.
  - rewrite bool_decide_eq_false_2 by done.
    rewrite bool_decide_eq_true_2 by done. cbn [py_any]. by rewrite IH.
Qed.

Lemma self_reference_exhausts_depth_witness :
  let loop :=
    PGroup (MkConditionGroup (Some ["Requirement"]) (Some GROUP_ANY)
              (Some [MName "loop"])) in
  predicate_call 1000 (build_item_map trace) {[ "loop" := loop ]} loop req1
  = Raise RuntimeError.
Proof.
  intros loop.
  apply (self_reference_exhausts_depth "loop" GROUP_ANY
           (Some ["Requirement"])).
  - reflexivity.
  - right. reflexivity.
  - cbn. in_list.
Defined.

(** ** More call depth *)

Lemma py_all_extends {A} (f g : A -> result bool) (l : list A) b :
  (forall x c, f x = Ok c -> g x = Ok c) ->
  py_all f l = Ok b -> py_all g l = Ok b.
Proof.
  intros Hfg. induction l as [|x l IH]; cbn [py_all]; [done|].
  destruct (f x) as [c|e] eqn:Hx; [|done]. rewrite (Hfg x c Hx).
  cbn [mbind result_bind]. destruct c; [apply IH | done].
Qed.

Lemma py_any_extends {A} (f g : A -> result bool) (l : list A) b :
  (forall x c, f x = Ok c -> g x = Ok c) ->
  py_any f l = Ok b -> py_any g l = Ok b.
Proof.
  intros Hfg. induction l as [|x l IH]; cbn [py_any]; [done|].
  destruct (f x) as [c|e] eqn:Hx; [|done]. rewrite (Hfg x c Hx).
  cbn [mbind result_bind]. destruct c; [done | apply IH].
Qed.

Lemma py_count_extends {A} (f g : A -> result bool) (l : list A) n :
  (forall x c, f x = Ok c -> g x = Ok c) ->
  py_count f l = Ok n -> py_count g l = Ok n.
Proof.
  intros Hfg. revert n. induction l as [|x l IH]; intros n; cbn [py_count];
    [done|].
  destruct (f x) as [c|e] eqn:Hx; [|done]. rewrite (Hfg x c Hx).
  cbn [mbind result_bind].
  destruct (py_count f l) as [m|e] eqn:Hl; [|done].
  by rewrite (IH m eq_refl).
Qed.

Lemma call_nested_extends call call' condition u b :
  extends call call' ->
  call_nested call condition u = Ok b -> call_nested call' condition u = Ok b.
Proof. intros Hext. destruct condition as [p|]; [apply Hext | done]. Qed.

Lemma _evaluate_relationships_extends call call' rels types logic unknowns
    count condition item_map b :
  extends call call' ->
  _evaluate_relationships call rels types logic unknowns count condition
    item_map = Ok b ->
  _evaluate_relationships call' rels types logic unknowns count condition
    item_map = Ok b.
Proof.
  intros Hext. unfold _evaluate_relationships.
  destruct (collect_related types item_map rels) as [known n].
  destruct (is_none logic); [done|].
  destruct (_ && _ && _); [done|].
  destruct (bool_decide (logic = Some RELS_COUNT_MATCH)).
  - destruct (py_count (call_nested call condition) known) as [m|e] eqn:Hm;
      [|done].
    rewrite (py_count_extends _ (call_nested call' condition) _ _
               (fun x c => call_nested_extends _ _ _ x c Hext) Hm).
    done.
  - unfold _relcomp. repeat case_bool_decide; [| |done].
    + apply py_all_extends. intros x c. by apply call_nested_extends.
    + apply py_all_extends. intros x c.
      destruct (call_nested call condition x) as [r|e] eqn:Hx; [|done].
      by rewrite (call_nested_extends _ _ _ _ _ Hext Hx).
Qed.

Lemma Condition_call_extends call call' c item item_map named b :
  extends call call' ->
  Condition_call call c item item_map named = Ok b ->
  Condition_call call' c item item_map named = Ok b.
Proof.
  intros Hext. unfold Condition_call.
  repeat match goal with
         | |- context [if ?x then _ else _] => destruct x
         | |- context [match ?x with _ => _ end] => destruct x
         end; try done.
  all: destruct (nested_condition _ named) as [condition|e]; [|done];
    cbn [mbind result_bind]; by apply _evaluate_relationships_extends.
Qed.

Lemma ConditionGroup_call_extends call call' g item named b :
  extends call call' ->
  ConditionGroup_call call g item named = Ok b ->
  ConditionGroup_call call' g item named = Ok b.
Proof.
  intros Hext. unfold ConditionGroup_call.
  destruct (match group_type g with Some _ => _ | None => _ end); [done|].
  destruct (group_conditions g) as [members|]; [|done].
  destruct (resolve_members named members) as [ps|e]; [|done].
  cbn [mbind result_bind]. repeat case_bool_decide; [| |done].
  - apply py_all_extends. intros p c. apply Hext.
  - apply py_any_extends. intros p c. apply Hext.
Qed.

Lemma predicate_call_step depth item_map named :
  extends (predicate_call depth item_map named)
    (predicate_call (S depth) item_map named).
Proof.
  induction depth as [|depth IH]; intros p u b; [done|].
  intros Hcall. cbn [predicate_call] in Hcall |- *.
  destruct p as [c|g].
  - by apply (Condition_call_extends _ _ _ _ _ _ _ IH).
  - by apply (ConditionGroup_call_extends _ _ _ _ _ _ IH).
Qed.

(** X11: a result does not depend on the call depth that was allowed:
    when a call of a condition or of a group returns within some depth,
    it returns the same truth value within every greater depth. *)
Theorem result_independent_of_depth (depth depth' : nat)
    (item_map : gmap string Item) (named : gmap string predicate)
    (p : predicate) (item : Item) (b : bool) :
  depth <= depth' ->
  predicate_call depth item_map named p item = Ok b ->
  predicate_call depth' item_map named p item = Ok b.
Proof.
  intros Hle Hcall. induction Hle as [|depth' Hle IH]; [done|].
  by apply predicate_call_step.
Qed.

Lemma result_independent_of_depth_witness :
  predicate_call 50 (build_item_map trace) registry
    (PCondition
       (relationships_condition Downstream
          (None, Some [(NUM_IS, NInt 3%Z)], Some RELS_COUNT_MATCH,
           Some "passed", Some false)))
    req1 = Ok true.
Proof.
  apply (result_independent_of_depth 2 50); [lia | vm_compute; reflexivity].
Defined.

(** ** Filters of a group of two conditions *)

Lemma filter_of_Ok depth main r items h out :
  JamaFilter_call depth (filter_of main r) items h = Ok out ->
  (forall item, item ∈ items ->
     returns (predicate_call depth (build_item_map items) (h !!! r) main item))
  /\ (forall item,
        item ∈ out <->
        item ∈ items /\
        predicate_call depth (build_item_map items) (h !!! r) main item
        = Ok true).
Proof.
  unfold JamaFilter_call. cbn [main_condition named_conditions filter_of].
  intros Hout.
  pose proof (py_filter_Ok _ _ _ Hout) as Hret. split; [done|].
  rewrite (py_filter_returns _ _ Hret) in Hout. injection Hout as <-.
  intros item. rewrite list_elem_of_filter. tauto.
Qed.

Lemma any_of_call call p q item named bp bq :
  call p item = Ok bp -> call q item = Ok bq ->
  ConditionGroup_call call
    (MkConditionGroup None (Some GROUP_ANY) (Some [MObject p; MObject q]))
    item named = Ok (bp || bq).
Proof.
  intros Hp Hq. unfold ConditionGroup_call. cbn. rewrite Hp. cbn.
  destruct bp; [done|]. rewrite Hq. cbn. by destruct bq.
Qed.

Lemma all_of_call call p q item named bp bq :
  call p item = Ok bp -> call q item = Ok bq ->
  ConditionGroup_call call
    (MkConditionGroup None (Some GROUP_ALL) (Some [MObject p; MObject q]))
    item named = Ok (bp && bq).
Proof.
  intros Hp Hq. unfold ConditionGroup_call. cbn. rewrite Hp. cbn.
  destruct bp; [|done]. rewrite Hq. cbn. by destruct bq.
Qed.

(** X12: over one list of items, when the filters of two conditions both
    return, the filter of their [according to any] group returns the
    items that are in one of the two results, and the filter of their
    [according to all] group the items that are in both, each in input
    order. *)
Theorem group_filter_combines (depth : nat) (r : ref) (h : store)
    (items : list Item) (p q : predicate) (out_p out_q : list Item) :
  JamaFilter_call depth (filter_of p r) items h = Ok out_p ->
  JamaFilter_call depth (filter_of q r) items h = Ok out_q ->
  (exists out,
     JamaFilter_call (S depth) (filter_of (any_of p q) r) items h = Ok out /\
     out `sublist_of` items /\
     forall item, item ∈ out <-> item ∈ out_p \/ item ∈ out_q) /\
  (exists out,
     JamaFilter_call (S depth) (filter_of (all_of p q) r) items h = Ok out /\
     out `sublist_of` items /\
     forall item, item ∈ out <-> item ∈ out_p /\ item ∈ out_q).
Proof.
  intros Hp Hq.
  apply filter_of_Ok in Hp as [Hretp Hinp].
  apply filter_of_Ok in Hq as [Hretq Hinq].
  set (item_map := build_item_map items) in *.
  set (call := predicate_call depth item_map (h !!! r)) in *.
  assert (Hany : forall item, item ∈ items ->
             exists bp bq, call p item = Ok bp /\ call q item = Ok bq /\
               predicate_call (S depth) item_map (h !!! r) (any_of p q) item
               = Ok (bp || bq) /\
               predicate_call (S depth) item_map (h !!! r) (all_of p q) item
               = Ok (bp && bq)).
  { intros item Hitem.
    destruct (Hretp item Hitem) as [bp Hbp].
    destruct (Hretq item Hitem) as [bq Hbq].
    exists bp, bq. split; [done|]. split; [done|]. split.
    - by apply any_of_call.
    - by apply all_of_call. }
  split.
  - exists (filter (fun item =>
                      predicate_call (S depth) item_map (h !!! r) (any_of p q)
                        item = Ok true) items).
    split; [|split; [apply sublist_filter|]].
    + unfold JamaFilter_call.
      cbn [main_condition named_conditions filter_of].
      apply py_filter_returns. intros item Hitem.
      destruct (Hany item Hitem) as (bp & bq & _ & _ & Hg & _). by eexists.
    + intros item. rewrite list_elem_of_filter, Hinp, Hinq.
      fold item_map. split.
      * intros [Hg Hitem].
        destruct (Hany item Hitem) as (bp & bq & Hbp & Hbq & Hg' & _).
        rewrite Hg' in Hg. injection Hg as Hor. rewrite Hbp, Hbq.
        apply orb_true_iff in Hor as [-> | ->]; tauto.
      * intros [[Hitem Hbp] | [Hitem Hbq]];
          (split; [|done]);
          destruct (Hany item Hitem) as (bp & bq & Hbp' & Hbq' & -> & _).
        -- assert (bp = true) as -> by congruence. done.
        -- assert (bq = true) as -> by congruence. by rewrite orb_true_r.
  - exists (filter (fun item =>
                      predicate_call (S depth) item_map (h !!! r) (all_of p q)
                        item = Ok true) items).
    split; [|split; [apply sublist_filter|]].
    + unfold JamaFilter_call.
      cbn [main_condition named_conditions filter_of].
      apply py_filter_returns. intros item Hitem.
      destruct (Hany item Hitem) as (bp & bq & _ & _ & _ & Hg). by eexists.
    + intros item. rewrite list_elem_of_filter, Hinp, Hinq.
      fold item_map. split.
      * intros [Hg Hitem].
        destruct (Hany item Hitem) as (bp & bq & Hbp & Hbq & _ & Hg').
        rewrite Hg' in Hg. injection Hg as Hand. rewrite Hbp, Hbq.
        apply andb_true_iff in Hand as [-> ->]. tauto.
      * intros [[Hitem Hbp] [_ Hbq]]. split; [|done].
        destruct (Hany item Hitem) as (bp & bq & Hbp' & Hbq' & _ & ->).
        assert (bp = true) as -> by congruence.
        assert (bq = true) as -> by congruence. done.
Qed.

Lemma group_filter_combines_witness :
  (exists out,
     JamaFilter_call 3
       (filter_of (any_of (PCondition passed_condition)
                     (PCondition range_condition)) 7) trace filter_store
     = Ok out /\
     forall item, item ∈ out <-> item ∈ [test1; test2] \/ item ∈ [req1]) /\
  (exists out,
     JamaFilter_call 3
       (filter_of (all_of (PCondition passed_condition)
                     (PCondition range_condition)) 7) trace filter_store
     = Ok out /\
     forall item, item ∈ out <-> item ∈ [test1; test2] /\ item ∈ [req1]).
Proof.
  destruct (group_filter_combines 2 7 filter_store trace
              (PCondition passed_condition) (PCondition range_condition)
              [test1; test2] [req1])
    as [(out & Hout & _ & Hin) (out' & Hout' & _ & Hin')].
  - vm_compute. reflexivity.
  - vm_compute. reflexivity.
  - split; [exists out | exists out']; done.
Defined.

(** ** filter_jama_data on a dictionary of conditions *)

(** X13: [filter_jama_data] on a list of items and a dictionary of
    conditions that has ['main'] filters the items with that main
    condition and the rest of the dictionary as registry, and leaves the
    caller's dictionary without ['main'], whether or not the filtering
    raised.  A second call with the same dictionary therefore raises
    KeyError, whatever the items. *)
Theorem filter_jama_data_consumes_main parse load (depth : nat)
    (conditions : ref) (h : store) (main : predicate) (items : list Item) :
  (h !!! conditions) !! "main" = Some main ->
  exists h',
    filter_jama_data parse load depth (DataItems items)
      (FilterDict conditions) h
    = (JamaFilter_call depth (filter_of main conditions) items h', h') /\
    h' !!! conditions = delete "main" (h !!! conditions) /\
    forall depth' items',
      filter_jama_data parse load depth' (DataItems items')
        (FilterDict conditions) h'
      = (Raise (KeyError "main"), h').
Proof.
  intros Hmain. exists (<[conditions := delete "main" (h !!! conditions)]> h).
  unfold filter_jama_data, JamaFilter_init, dict_pop. rewrite Hmain.
  split; [done|]. rewrite lookup_total_insert_eq. split; [done|].
  intros depth' items'.
  assert (Hgone : delete "main" (h !!! conditions) !! "main" = None)
    by apply lookup_delete_eq.
  rewrite Hgone. reflexivity.
Qed.

Lemma filter_jama_data_consumes_main_witness :
  exists h',
    filter_jama_data (fun _ => Raise TypeError)
      (fun _ h => (Raise TypeError, h)) 2 (DataItems trace) (FilterDict 7)
      filter_store = (Ok [req1], h') /\
    filter_jama_data (fun _ => Raise TypeError)
      (fun _ h => (Raise TypeError, h)) 2 (DataItems trace) (FilterDict 7) h'
    = (Raise (KeyError "main"), h').
Proof.
  destruct (filter_jama_data_consumes_main (fun _ => Raise TypeError)
              (fun _ h => (Raise TypeError, h)) 2 7 filter_store
              (PCondition range_condition) trace)
    as (h' & Hfirst & Hdict & Hsecond); [reflexivity|].
  exists h'. split; [|apply Hsecond].
  rewrite Hfirst. reflexivity.
Defined.

(** ** dict_get_first *)

(** X14: [dict_get_first] returns the first key of the list, in list
    order, that the dictionary has, with its value: every key before it
    in the list is absent.  It returns no key exactly when the dictionary
    has none of the keys. *)
Theorem dict_get_first_first {D A} `{Lookup string A D} (d : D)
    (keys : list string) :
  match dict_get_first d keys with
  | Some (k, v) =>
      d !! k = Some v /\
      exists before after,
        keys = (before ++ k :: after)%list /\
        forall k', k' ∈ before -> d !! k' = None
  | None => forall k, k ∈ keys -> d !! k = None
  end.
Proof.
  induction keys as [|key keys IH]; cbn [dict_get_first].
  - intros k Hk. by apply elem_of_nil in Hk.
  - destruct (d !! key) as [v|] eqn:Hkey.
    + split; [done|]. exists [], keys. split; [done|].
      intros k' Hk'. by apply elem_of_nil in Hk'.
    + destruct (dict_get_first d keys) as [[k v]|].
      * destruct IH as (Hk & before & after & -> & Hbefore).
        split; [done|]. exists (key :: before), after. split; [done|].
        intros k' Hk'. apply elem_of_cons in Hk' as [-> | Hk']; [done|].
        by apply Hbefore.
      * intros k Hk. apply elem_of_cons in Hk as [-> | Hk]; [done|].
        by apply IH.
Qed.

(** ** The comparisons and their negations *)

(** X15: in [_strcomp], [does not contain], [is not] and [not in] are
    the negations of [contains], [is] and [in] on every comparison
    value, raising when they raise; a logic that is none of the seven
    names raises InvalidCondition. *)
Theorem _strcomp_negations (value : string) (comp_value : option str_value) :
  _strcomp value comp_value (Some STR_DOES_NOT_CONTAIN)
  = negb <$> _strcomp value comp_value (Some STR_CONTAINS) /\
  _strcomp value comp_value (Some STR_IS_NOT)
  = negb <$> _strcomp value comp_value (Some STR_IS) /\
  _strcomp value comp_value (Some STR_NOT_IN)
  = negb <$> _strcomp value comp_value (Some STR_IN) /\
  forall logic,
    logic ∉ (Some <$> STR_KEYS) ->
    _strcomp value comp_value logic =
    Raise (InvalidCondition
             ("Invalid string comparison logic " +:+
              quoted (default "None" logic))).
Proof.
  split; [|split; [|split]];
    try (destruct comp_value as [[s|l|m]|]; reflexivity).
  intros logic Hlogic. unfold _strcomp.
  repeat (case_bool_decide;
          [exfalso; apply Hlogic; subst logic; unfold STR_KEYS; cbn; in_list|]).
  reflexivity.
Qed.

(** X16: in [_numcomp], [is not] and [not in] are the negations of [is]
    and [in] on every comparison value, raising when they raise; on an
    integer, [greater than or equal to] is the negation of [less than]
    and [less than or equal to] the negation of [greater than]; a logic
    that is none of the eight names raises InvalidCondition. *)
Theorem _numcomp_negations (value : Z) :
  (forall comp_value,
     _numcomp value comp_value NUM_IS_NOT
     = negb <$> _numcomp value comp_value NUM_IS /\
     _numcomp value comp_value NUM_NOT_IN
     = negb <$> _numcomp value comp_value NUM_IN) /\
  (forall n,
     _numcomp value (NInt n) NUM_GREATER_THAN_EQ
     = negb <$> _numcomp value (NInt n) NUM_LESS_THAN /\
     _numcomp value (NInt n) NUM_LESS_THAN_EQ
     = negb <$> _numcomp value (NInt n) NUM_GREATER_THAN) /\
  (forall comp_value logic,
     logic ∉ NUM_KEYS ->
     _numcomp value comp_value logic =
     Raise (InvalidCondition
              ("Invalid number comparison logic " +:+ quoted logic))).
Proof.
  split; [|split].
  - intros [n|l]; split; reflexivity.
  - intros n. split.
    + change (Ok (value >=? n)%Z = Ok (negb (value <? n)%Z)). f_equal.
      rewrite Z.geb_leb. apply Z.leb_antisym.
    + change (Ok (value <=? n)%Z = Ok (negb (value >? n)%Z)). f_equal.
      rewrite Z.gtb_ltb. apply Z.leb_antisym.
  - intros comp_value logic Hlogic. unfold _numcomp.
    repeat (case_bool_decide;
            [exfalso; apply Hlogic; subst logic; unfold NUM_KEYS; in_list|]).
    reflexivity.
Qed.

(** ** Containment *)

Lemma append_cons (a : ascii) (s t : string) :
  String a s +:+ t = String a (s +:+ t).
Proof. reflexivity. Qed.

Lemma append_nil (t : string) : "" +:+ t = t.
Proof. reflexivity. Qed.

Lemma prefix_append (p s : string) :
  String.prefix p s = true <-> exists post, s = p +:+ post.
Proof.
  revert s. induction p as [|a p IH]; intros s; cbn.
  - split; [intros _; by exists s | intros _; by destruct s].
  - destruct s as [|b s]; [split; [done | intros [post [=]]]|].
    cbn [String.prefix].
    match goal with
    | |- context [if ?dec then _ else _] => destruct dec as [->|Hne]
    end.
    + rewrite IH.
      split; intros [post Hpost]; exists post; rewrite append_cons in *;
        congruence.
    + split; [done|]. intros [post Hpost]. rewrite append_cons in Hpost.
      congruence.
Qed.

Lemma str_contains_spec (needle hay : string) :
  str_contains needle hay = true <->
  exists pre post, hay = pre +:+ needle +:+ post.
Proof.
  induction hay as [|a hay IH]; cbn [str_contains]; rewrite orb_true_iff.
  - rewrite prefix_append. split.
    + intros [[post ->] | [=]]. by exists "", post.
    + intros (pre & post & Heq). left.
      destruct pre; [by exists post|done].
  - rewrite prefix_append, IH. split.
    + intros [[post ->] | (pre & post & ->)].
      * by exists "", post.
      * by exists (String a pre), post.
    + intros (pre & post & Heq). destruct pre as [|b pre].
      * left. by exists post.
      * right. injection Heq as -> ->. by exists pre, post.
Qed.

(** X17: the [contains] comparison holds exactly when the comparison
    string occurs in the value as one contiguous piece, so the empty
    string is contained in every value; [in] with a list holds exactly
    when the value is an element of the list. *)
Theorem contains_is_substring (value s : string) (l : list string) :
  (exists b,
     _strcomp value (Some (SStr s)) (Some STR_CONTAINS) = Ok b /\
     (b = true <-> exists pre post, value = pre +:+ s +:+ post)) /\
  _strcomp value (Some (SStr "")) (Some STR_CONTAINS) = Ok true /\
  (exists b,
     _strcomp value (Some (SList l)) (Some STR_IN) = Ok b /\
     (b = true <-> value ∈ l)).
Proof.
  split; [|split].
  - exists (str_contains s value). split; [reflexivity|].
    apply str_contains_spec.
  - change (Ok (str_contains "" value) = Ok true). f_equal.
    apply str_contains_spec. by exists "", value.
  - exists (bool_decide (value ∈ l)). split; [reflexivity|].
    apply bool_decide_eq_true.
Qed.

(** ** Location strings *)

Example _location_examples :
  _location "Project/Requirements/Login" = ["Project"; "Requirements"; "Login"]
  /\ _location "" = [""]
  /\ _location ("A" +:+ String backslash "/B/C") = ["A/B"; "C"]
  /\ _location "/A//" = [""; "A"; ""; ""].
Proof. repeat split; reflexivity. Qed.

Lemma split_unescaped_cons prev v :
  exists piece more, split_unescaped prev v = piece :: more.
Proof.
  revert prev. induction v as [|c v IH]; intros prev; cbn [split_unescaped].
  - by eexists _, _.
  - destruct (IH (Some c)) as (piece & more & ->).
    destruct (_ && _); by eexists _, _.
Qed.

Lemma concat_cons_cons sep (x y : string) (l : list string) :
  String.concat sep (x :: y :: l) = x +:+ sep +:+ String.concat sep (y :: l).
Proof. reflexivity. Qed.

(** Joining the pieces with slashes gives the string back. *)
Lemma split_unescaped_join prev v :
  String.concat "/" (split_unescaped prev v) = v.
Proof.
  revert prev. induction v as [|c v IH]; intros prev; cbn [split_unescaped];
    [done|].
  specialize (IH (Some c)).
  destruct (split_unescaped_cons (Some c) v) as (piece & more & Hsplit).
  rewrite Hsplit in IH |- *.
  destruct (bool_decide (c = slash) && _) eqn:Hsep.
  - apply andb_true_iff in Hsep as [Hc _].
    apply bool_decide_eq_true in Hc as ->.
    rewrite concat_cons_cons, IH. reflexivity.
  - destruct more as [|piece' more].
    + cbn in IH |- *. by rewrite IH.
    + rewrite concat_cons_cons in IH |- *. rewrite append_cons. by rewrite IH.
Qed.

Lemma split_unescaped_plain prev v :
  has_char backslash v = false ->
  prev <> Some backslash ->
  Forall (fun node => has_char backslash node = false /\
                      has_char slash node = false)
    (split_unescaped prev v).
Proof.
  revert prev. induction v as [|c v IH]; intros prev Hv Hprev;
    cbn [split_unescaped].
  - by repeat constructor.
  - cbn [has_char] in Hv. apply orb_false_iff in Hv as [Hc Hv].
    apply bool_decide_eq_false in Hc.
    assert (Hrest := IH (Some c) Hv ltac:(congruence)).
    rewrite (bool_decide_eq_false_2 (prev = _)) by done. cbn [negb].
    rewrite andb_true_r. case_bool_decide as Hslash.
    + constructor; [done | done].
    + destruct (split_unescaped (Some c) v) as [|piece more].
      * constructor; [|done]. cbn [has_char].
        by rewrite !bool_decide_eq_false_2.
      * apply Forall_cons in Hrest as [[Hp1 Hp2] Hmore].
        constructor; [|done]. cbn [has_char].
        by rewrite !bool_decide_eq_false_2, Hp1, Hp2.
Qed.

Lemma replace_pair_plain a b new x :
  has_char a x = false -> replace_pair a b new x = x.
Proof.
  induction x as [|c x IH]; [done|]. cbn [has_char]. intros Hx.
  apply orb_false_iff in Hx as [Hc Hx]. cbn [replace_pair].
  destruct x as [|d x]; [done|]. rewrite Hc. cbn [andb]. by rewrite IH.
Qed.

(** X18: [_location] never returns an empty path: the empty string is
    one empty node.  On a string without backslashes it cuts at every
    slash: no node has a slash or a backslash, and joining the nodes
    with slashes gives the string back. *)
Theorem _location_plain (v : string) :
  _location v <> [] /\
  (has_char backslash v = false ->
   Forall (fun node => has_char backslash node = false /\
                       has_char slash node = false) (_location v) /\
   String.concat "/" (_location v) = v).
Proof.
  unfold _location. split.
  - destruct (split_unescaped_cons None v) as (piece & more & ->). done.
  - intros Hv.
    pose proof (split_unescaped_plain None v Hv ltac:(done)) as Hplain.
    assert (Hid : (fun x =>
                     replace_pair backslash backslash
                       (String backslash EmptyString)
                       (replace_pair backslash slash
                          (String slash EmptyString) x))
                  <$> split_unescaped None v = split_unescaped None v).
    { revert Hplain. generalize (split_unescaped None v). intros l Hplain.
      induction Hplain as [|node nodes [Hb _] _ IH]; [done|].
      rewrite fmap_cons. cbn beta.
      rewrite (replace_pair_plain backslash slash) by done.
      rewrite replace_pair_plain by done.
      f_equal. apply IH. }
    rewrite Hid. split; [done | apply split_unescaped_join].
Qed.

Lemma _location_plain_witness :
  Forall (fun node => has_char backslash node = false /\
                      has_char slash node = false)
    (_location "Avionics/Requirements/Login") /\
  String.concat "/" (_location "Avionics/Requirements/Login")
  = "Avionics/Requirements/Login".
Proof.
  apply (proj2 (_location_plain "Avionics/Requirements/Login")).
  reflexivity.
Defined.

Lemma split_escaped_last prev node :
  has_char backslash node = false ->
  split_unescaped prev (escape_slashes node) = [escape_slashes node].
Proof.
  revert prev. induction node as [|c node IH]; intros prev Hnode; [done|].
  cbn [has_char] in Hnode. apply orb_false_iff in Hnode as [Hc Hnode].
  apply bool_decide_eq_false in Hc. cbn [escape_slashes].
  case_bool_decide as Hslash.
  - cbn [split_unescaped]. rewrite (IH _ Hnode).
    rewrite (bool_decide_eq_false_2 (backslash = slash)) by done.
    rewrite (bool_decide_eq_true_2 (Some backslash = Some backslash)) by done.
    cbn [andb negb]. by rewrite andb_false_r.
  - cbn [split_unescaped]. rewrite (IH _ Hnode).
    by rewrite (bool_decide_eq_false_2 (c = slash)).
Qed.

Lemma split_escaped_node prev node rest :
  has_char backslash node = false ->
  prev <> Some backslash ->
  split_unescaped prev (escape_slashes node +:+ String slash rest)
  = escape_slashes node :: split_unescaped (Some slash) rest.
Proof.
  revert prev. induction node as [|c node IH]; intros prev Hnode Hprev.
  - cbn [escape_slashes]. rewrite append_nil. cbn [split_unescaped].
    rewrite (bool_decide_eq_true_2 (slash = slash)) by done.
    by rewrite (bool_decide_eq_false_2 (prev = _)).
  - cbn [has_char] in Hnode. apply orb_false_iff in Hnode as [Hc Hnode].
    apply bool_decide_eq_false in Hc. cbn [escape_slashes].
    case_bool_decide as Hslash.
    + rewrite !append_cons. cbn [split_unescaped].
      rewrite (IH (Some slash) Hnode) by done.
      rewrite (bool_decide_eq_false_2 (backslash = slash)) by done.
      rewrite (bool_decide_eq_true_2 (Some backslash = Some backslash))
        by done.
      cbn [andb negb]. by rewrite andb_false_r.
    + rewrite append_cons. cbn [split_unescaped].
      rewrite (IH (Some c) Hnode) by congruence.
      by rewrite (bool_decide_eq_false_2 (c = slash)).
Qed.

Lemma split_escaped_nodes prev node nodes :
  Forall (fun x => has_char backslash x = false) (node :: nodes) ->
  prev <> Some backslash ->
  split_unescaped prev (String.concat "/" (escape_slashes <$> node :: nodes))
  = escape_slashes <$> node :: nodes.
Proof.
  revert prev node. induction nodes as [|node' nodes IH];
    intros prev node Hall Hprev.
  - apply Forall_cons in Hall as [Hnode _]. by apply split_escaped_last.
  - apply Forall_cons in Hall as [Hnode Hall].
    rewrite !fmap_cons, concat_cons_cons.
    change ("/" +:+ ?t) with (String slash t).
    rewrite split_escaped_node by done. f_equal.
    rewrite <- fmap_cons. by apply IH.
Qed.

Lemma unescape_escaped node :
  has_char backslash node = false ->
  replace_pair backslash slash (String slash EmptyString) (escape_slashes node)
  = node.
Proof.
  induction node as [|c node IH]; [done|]. cbn [has_char]. intros Hnode.
  apply orb_false_iff in Hnode as [Hc Hnode].
  apply bool_decide_eq_false in Hc. cbn [escape_slashes].
  case_bool_decide as Hslash.
  - cbn [replace_pair]. rewrite !bool_decide_eq_true_2 by done. cbn [andb].
    rewrite append_cons, append_nil, IH by done. by rewrite Hslash.
  - cbn [replace_pair].
    destruct (escape_slashes node) as [|d rest] eqn:Hesc.
    + destruct node as [|d node]; [done|]. cbn [escape_slashes] in Hesc.
      by case_bool_decide.
    + rewrite (bool_decide_eq_false_2 (c = backslash)) by done. cbn [andb].
      by rewrite IH.
Qed.

(** X19: a path written with its nodes joined by slashes, each slash
    inside a node escaped by a backslash, is read back by [_location] as
    the list of its nodes, when no node has a backslash of its own. *)
Theorem _location_escaped (node : string) (nodes : list string) :
  Forall (fun x => has_char backslash x = false) (node :: nodes) ->
  _location (String.concat "/" (escape_slashes <$> node :: nodes))
  = node :: nodes.
Proof.
  intros Hall. unfold _location.
  rewrite split_escaped_nodes by done.
  rewrite <- list_fmap_compose.
  induction Hall as [|x l Hx Hl IH]; [done|].
  rewrite fmap_cons. f_equal; [|apply IH].
  cbn [compose]. rewrite unescape_escaped by done.
  by apply replace_pair_plain.
Qed.

Lemma _location_escaped_witness :
  _location ("Avionics/Input" +:+ String backslash "/Output/Login")
  = ["Avionics"; "Input/Output"; "Login"].
Proof.
  apply (_location_escaped "Avionics" ["Input/Output"; "Login"]).
  repeat constructor.
Defined.

(** ** dict_update *)

Example dict_update_example :
  dict_update
    {[ "name" := VLeaf "jama";
       "log" := VDict {[ "level" := VLeaf "info"; "file" := VLeaf "out.log" ]} ]}
    {[ "log" := VDict {[ "level" := VLeaf "debug" ]};
       "user" := VDict {[ "id" := VLeaf "7" ]} ]}
  = {[ "name" := VLeaf "jama";
       "log" := VDict {[ "level" := VLeaf "debug"; "file" := VLeaf "out.log" ]};
       "user" := VDict {[ "id" := VLeaf "7" ]} ]}.
Proof. vm_compute. reflexivity. Qed.

Lemma apply_updates_lookup original updates k :
  apply_updates original updates !! k =
  match updates !! k with
  | None => original !! k
  | Some g => Some (g (original !! k))
  end.
Proof.
  unfold apply_updates. rewrite lookup_merge.
  destruct (original !! k), (updates !! k); reflexivity.
Qed.

(** X20: [dict_update] keeps the value of every key the update does not
    have, takes the value of the update for a key whose value is not a
    dictionary in both, and merges the two dictionaries, by the same
    rule, for a key whose value is a dictionary in both.  Its keys are
    the keys of the original and of the update; updating with the empty
    dictionary, or updating the empty dictionary, changes nothing. *)
Theorem dict_update_lookup (original update : gmap string pyval) :
  (forall k,
     dict_update original update !! k =
     match update !! k with
     | None => original !! k
     | Some (VDict u) =>
         match original !! k with
         | Some (VDict o) => Some (VDict (dict_update o u))
         | _ => Some (VDict u)
         end
     | Some v => Some v
     end) /\
  dom (dict_update original update) = dom original ∪ dom update /\
  dict_update original ∅ = original /\
  dict_update ∅ update = update.
Proof.
  assert (Hlookup : forall original update k,
            dict_update original update !! k =
            match update !! k with
            | None => original !! k
            | Some (VDict u) =>
                match original !! k with
                | Some (VDict o) => Some (VDict (dict_update o u))
                | _ => Some (VDict u)
                end
            | Some v => Some v
            end).
  { intros o u k. unfold dict_update at 1.
    rewrite apply_updates_lookup, lookup_fmap.
    destruct (u !! k) as [[s|ud]|]; cbn; [done| |done].
    by destruct (o !! k) as [[s|od]|]. }
  split; [apply Hlookup|]. split; [|split].
  - apply set_eq. intros k. rewrite elem_of_union, !elem_of_dom, Hlookup.
    rewrite <- !not_eq_None_Some.
    destruct (update !! k) as [[s|ud]|];
      destruct (original !! k) as [[s'|od]|]; intuition congruence.
  - apply map_eq. intros k. by rewrite Hlookup, lookup_empty.
  - apply map_eq. intros k. rewrite Hlookup, lookup_empty.
    by destruct (update !! k) as [[s|ud]|].
Qed.

Lemma fold_max_le (m : gmap string nat) k n :
  m !! k = Some n -> n <= map_fold (fun _ n acc => n `max` acc) 0 m.
Proof.
  induction m as [|i x m Hi IH] using map_ind; [done|].
  rewrite map_fold_insert_L; [|intros; lia|done].
  intros Hk. apply lookup_insert_Some in Hk as [[-> ->]|[_ Hk]]; [lia|].
  specialize (IH Hk). lia.
Qed.

Lemma depth_of_lookup (d : gmap string pyval) k v :
  d !! k = Some v -> depth_of v < depth_of (VDict d).
Proof.
  intros Hk. cbn [depth_of]. apply Nat.lt_succ_r.
  apply (fold_max_le _ k). by rewrite lookup_fmap, Hk.
Qed.

Lemma update_value_self_bounded n v :
  depth_of v < n -> update_value v (Some v) = v.
Proof.
  revert v. induction n as [|n IH]; intros v Hn; [lia|].
  destruct v as [s|d]; [done|]. cbn [update_value]. f_equal.
  apply map_eq. intros k. rewrite apply_updates_lookup, lookup_fmap.
  destruct (d !! k) as [v'|] eqn:Hk; [|done]. cbn. f_equal. apply IH.
  pose proof (depth_of_lookup d k v' Hk). lia.
Qed.

Lemma update_value_twice_bounded n v o :
  depth_of v < n ->
  update_value v (Some (update_value v o)) = update_value v o.
Proof.
  revert v o. induction n as [|n IH]; intros v o Hn; [lia|].
  destruct v as [s|ud]; [done|].
  destruct o as [[s|od]|]; cbn [update_value];
    try apply (update_value_self_bounded (S n) _ Hn).
  f_equal. apply map_eq. intros k.
  rewrite !apply_updates_lookup, lookup_fmap.
  destruct (ud !! k) as [v'|] eqn:Hk; [|done]. cbn. f_equal. apply IH.
  pose proof (depth_of_lookup ud k v' Hk). lia.
Qed.

(** X21: updating a dictionary with itself changes nothing, and applying
    the same update a second time changes nothing more. *)
Theorem dict_update_idempotent (original update : gmap string pyval) :
  dict_update update update = update /\
  dict_update (dict_update original update) update
  = dict_update original update.
Proof.
  pose proof (update_value_self_bounded _ (VDict update) (Nat.lt_succ_diag_r _))
    as Hself.
  pose proof (update_value_twice_bounded _ (VDict update)
                (Some (VDict original)) (Nat.lt_succ_diag_r _)) as Htwice.
  cbn [update_value] in Hself, Htwice.
  split; [by injection Hself | by injection Htwice].
Qed.

(** ** Conditions on the item's own attributes *)

Lemma own_attributes_call c call call' item item_map item_map' named named' :
  upstream_logic c = None -> upstream_count c = None ->
  downstream_logic c = None -> downstream_count c = None ->
  Condition_call call c item item_map named =
  Condition_call call' c item item_map' named'.
Proof.
  intros Hul Huc Hdl Hdc. unfold Condition_call.
  rewrite Hul, Huc, Hdl, Hdc. reflexivity.
Qed.

Lemma py_filter_ext {A} (f g : A -> result bool) (l : list A) :
  (forall x, f x = g x) -> py_filter f l = py_filter g l.
Proof.
  intros Hfg. induction l as [|x l IH]; [done|]. cbn [py_filter].
  by rewrite Hfg, IH.
Qed.

Lemma py_filter_app {A} (f : A -> result bool) (l1 l2 : list A) :
  py_filter f (l1 ++ l2)%list =
  (out1 ← py_filter f l1; out2 ← py_filter f l2; Ok (out1 ++ out2)%list).
Proof.
  induction l1 as [|x l1 IH]; cbn [py_filter app].
  - by destruct (py_filter f l2).
  - destruct (f x) as [b|e]; [|done]. cbn [mbind result_bind]. rewrite IH.
    destruct (py_filter f l1) as [out1|e]; [|done]. cbn [mbind result_bind].
    destruct (py_filter f l2) as [out2|e]; [|done]. cbn [mbind result_bind].
    by destruct b.
Qed.

Lemma py_filter_again {A} (f : A -> result bool) (l out : list A) :
  py_filter f l = Ok out -> py_filter f out = Ok out.
Proof.
  revert out. induction l as [|x l IH]; intros out; cbn [py_filter].
  - by intros [= <-].
  - destruct (f x) as [b|e] eqn:Hx; [|done]. cbn [mbind result_bind].
    destruct (py_filter f l) as [out'|e]; [|done]. cbn [mbind result_bind].
    intros [= <-]. specialize (IH out' eq_refl). destruct b; [|done].
    cbn [py_filter]. by rewrite Hx, IH.
Qed.

(** X22: a filter whose main condition is a condition on the item's own
    attributes decides each item alone.  Filtering two lists put
    together gives the two results put together, and filtering the
    result again gives the result. *)
Theorem own_attributes_filter (depth : nat) (c : Condition) (r : ref)
    (h : store) :
  own_attributes c ->
  (forall items1 items2,
     JamaFilter_call (S depth) (filter_of (PCondition c) r)
       (items1 ++ items2)%list h =
     (out1 ← JamaFilter_call (S depth) (filter_of (PCondition c) r) items1 h;
      out2 ← JamaFilter_call (S depth) (filter_of (PCondition c) r) items2 h;
      Ok (out1 ++ out2)%list)) /\
  (forall items out,
     JamaFilter_call (S depth) (filter_of (PCondition c) r) items h = Ok out ->
     JamaFilter_call (S depth) (filter_of (PCondition c) r) out h = Ok out).
Proof.
  intros (Hul & Huc & Hdl & Hdc & _).
  assert (Hcall : forall items,
            JamaFilter_call (S depth) (filter_of (PCondition c) r) items h =
            py_filter (fun item =>
                         Condition_call (fun _ _ => Raise RuntimeError) c item
                           ∅ ∅) items).
  { intros items. unfold JamaFilter_call.
    cbn [filter_of main_condition named_conditions].
    apply py_filter_ext. intros item. cbn [predicate_call].
    by apply own_attributes_call. }
  split.
  - intros items1 items2. rewrite !Hcall. apply py_filter_app.
  - intros items out. rewrite !Hcall. apply py_filter_again.
Qed.

Lemma own_attributes_filter_witness :
  own_attributes passed_condition /\
  JamaFilter_call 1 (filter_of (PCondition passed_condition) 7) trace
    filter_store = Ok [test1; test2] /\
  JamaFilter_call 1 (filter_of (PCondition passed_condition) 7)
    [test1; test2] filter_store = Ok [test1; test2] /\
  JamaFilter_call 2 (filter_of (PCondition range_condition) 7) trace
    filter_store = Ok [req1] /\
  JamaFilter_call 2 (filter_of (PCondition range_condition) 7) [req1]
    filter_store = Ok [].
Proof.
  assert (Hown : own_attributes passed_condition).
  { repeat split. right. by left. }
  split; [exact Hown|].
  split; [vm_compute; reflexivity|].
  split; [|split; vm_compute; reflexivity].
  apply (proj2 (own_attributes_filter 0 passed_condition 7 filter_store Hown)
           trace).
  vm_compute. reflexivity.
Defined.
